(** * ifoundDB: the localStorage-backed store of [localdb.js]

    A shallow embedding of the data layer ([load], [save], [addItem],
    [getItem], [listItemsByStudent], [addFoundReport],
    [verifyReportMoveToLost], [addClaim], [exportAll], [importMerge]) and the
    properties of it that the specification states.

    Conventions of the embedding:
    - the three record kinds are Rocq records, one module each, with the
      field names of the JavaScript objects; a stored or imported record is
      one of these: objects of another shape are outside the model;
    - an optional or nullable field is an [option];
    - report ids, claim ids and the two sequence counters are Numbers
      holding non-negative integers, kept as their values in [N]; the one
      operation on them that rounds, [counter + 1], is [Number_add1];
    - strings are compared as JavaScript compares them, code unit by code
      unit; timestamps are the ASCII strings [toISOString] produces;
    - every function of the API runs in the monad [M]: it reads and writes
      the one localStorage slot and completes normally or by throwing;
    - [nowIso()] and [uuidv4()] read the clock and the random source; their
      results are passed in as the arguments [now] and [uuid]. *)

From Stdlib Require Import String Ascii NArith ZArith Lia List Sorting.Sorted
  Sorting.Permutation Structures.OrderedTypeEx.
From Stdlib Require Import Floats.PrimFloat Floats.FloatOps Floats.SpecFloat Uint63.
From Stdlib Require Import HexString.
From stdpp Require Import base option list gmap strings numbers sorting.

Local Open Scope string_scope.
Local Open Scope list_scope.
Local Open Scope N_scope.
Local Set Warnings "-register-all".

(** ** Records *)

Module Item.
Record t := mk {
  id : string;
  itemName : string;
  studentId : string;
  ownerName : string;
  category : string;
  strand : option string;
  email : option string;
  contact : option string;
  photoPath : option string;
  status : string;
  createdAt : string;
  foundPhotoPath : option string;
  lastClaimedAt : option string
}.

(** [item.status = v] *)
Definition set_status (v : string) (x : t) : t :=
  mk (id x) (itemName x) (studentId x) (ownerName x) (category x) (strand x)
     (email x) (contact x) (photoPath x) v (createdAt x)
     (foundPhotoPath x) (lastClaimedAt x).

(** [item.foundPhotoPath = v] *)
Definition set_foundPhotoPath (v : option string) (x : t) : t :=
  mk (id x) (itemName x) (studentId x) (ownerName x) (category x) (strand x)
     (email x) (contact x) (photoPath x) (status x) (createdAt x)
     v (lastClaimedAt x).

(** [item.lastClaimedAt = v] *)
Definition set_lastClaimedAt (v : option string) (x : t) : t :=
  mk (id x) (itemName x) (studentId x) (ownerName x) (category x) (strand x)
     (email x) (contact x) (photoPath x) (status x) (createdAt x)
     (foundPhotoPath x) v.
End Item.

Module FoundReport.
Record t := mk {
  id : N;
  itemId : string;
  finderName : string;
  location : string;
  photoPath : option string;
  status : string;
  createdAt : string
}.

(** [report.status = v] *)
Definition set_status (v : string) (r : t) : t :=
  mk (id r) (itemId r) (finderName r) (location r) (photoPath r) v
     (createdAt r).
End FoundReport.

Module Claim.
Record t := mk {
  id : N;
  itemId : string;
  claimantName : string;
  createdAt : string
}.
End Claim.

Record Seq := mkSeq {
  seq_found_reports : N;
  seq_claims : N
}.

Record Store := mkStore {
  items : list Item.t;
  found_reports : list FoundReport.t;
  claims : list Claim.t;
  seq : Seq
}.

(** ** JavaScript values and built-ins the store relies on *)

(** [x || alt] on a string that may be undefined or null: the empty string
    is falsy as well. *)
Definition or_else (x : option string) (alt : string) : string :=
  match x with
  | Some s => if String.eqb s "" then alt else s
  | None => alt
  end.

(** [x || null] *)
Definition or_null (x : option string) : option string :=
  match x with
  | Some s => if String.eqb s "" then None else Some s
  | None => None
  end.

(** [n || 0] on a number *)
Definition or0 (n : N) : N := if n =? 0 then 0 else n.

(** [n + 1] on a Number holding a non-negative integer. A Number is an IEEE
    754 double and the sum is the exact sum rounded to the nearest double, to
    the one with the even significand when two are equally near. Up to 2^53
    every integer is a double and the sum is exact. From 2^53 up to 2^54 the
    doubles are the even integers: [n + 1] lies halfway between [n] and
    [n + 2], and the one of the two that is a multiple of 4 is returned.
    From 2^54 on the doubles lie 4 or more apart and [n] is returned. *)
Definition Number_add1 (n : N) : N :=
  if n <? 2 ^ 53 then n + 1
  else if (n <? 2 ^ 54) && (n mod 4 =? 2) then n + 2
  else n.

(** The double nearest to a non-negative integer [z]: [z] is cut to its 53
    leading bits, [r] is what is cut off, and the cut is rounded up when [r]
    is more than half a unit of the last place kept, or is half of it and
    the 53 bits kept are odd. *)
Definition round_to_double (z : N) : N :=
  let e := N.log2 z - 52 in
  let q := z / 2 ^ e in
  let r := z mod 2 ^ e in
  if 2 * r <? 2 ^ e then q * 2 ^ e
  else if 2 ^ e <? 2 * r then (q + 1) * 2 ^ e
  else if N.even q then q * 2 ^ e
  else (q + 1) * 2 ^ e.

(** The non-negative integers that are doubles: 53 significant bits and an
    exponent, up to (2^53 - 1) * 2^971. *)
Definition is_double (n : N) : Prop :=
  ∃ m k, n = m * 2 ^ k ∧ m < 2 ^ 53 ∧ k ≤ 971.

(** A non-negative integer below 2^63 as a Number: the double nearest to
    it. *)
Definition Number_of_N (n : N) : float :=
  PrimFloat.of_uint63 (Uint63.of_Z (Z.of_N n)).

(** [Math.max(...args)]; every call of the store passes at least the
    counter and a literal 0. *)
Definition Math_max (args : list N) : N := foldr N.max 0 args.

(** [arr.find(pred)] together with the position of the object found: the
    store mutates that object in place. *)
Definition Array_find {A} (pred : A → bool) (arr : list A) : option (nat * A) :=
  list_find (λ x, pred x = true) arr.

(** [new Map(entries)]: later entries replace earlier ones. *)
Definition new_Map {K A} `{Countable K} (entries : list (K * A)) : gmap K A :=
  foldl (λ m e, <[e.1 := e.2]> m) ∅ entries.

(** [map.has(k)] *)
Definition Map_has {K A} `{Countable K} (m : gmap K A) (k : K) : bool :=
  bool_decide (is_Some (m !! k)).

(** How a function body ends. *)
Inductive Completion (A : Type) : Type :=
| Normal (a : A)
| Throw.            (* a TypeError *)
Arguments Normal {A} a.
Arguments Throw {A}.

(** The value held by a collection field of an import payload. *)
Inductive Coll (A : Type) : Type :=
| Absent                         (* undefined, null, false, 0 or the empty string *)
| Elems (l : list (option A))    (* an array; [None] is a null element *)
| NotIterable.                   (* a number, true or a plain object *)
Arguments Absent {A}.
Arguments Elems {A} l.
Arguments NotIterable {A}.

(** The fields of a payload object that [importMerge] reads. *)
Record Snapshot := mkSnapshot {
  snap_items : Coll Item.t;
  snap_found_reports : Coll FoundReport.t;
  snap_claims : Coll Claim.t
}.

(** What [JSON.parse] may hand to [importMerge]. *)
Inductive JsValue : Type :=
| JsUndefined
| JsNull
| JsBoolean (b : bool)
| JsNumber (n : Z)
| JsString (s : string)
| JsArray (elems : list JsValue)
| JsObject (o : Snapshot).

(** [!!v] *)
Definition ToBoolean (v : JsValue) : bool :=
  match v with
  | JsUndefined | JsNull => false
  | JsBoolean b => b
  | JsNumber n => negb (n =? 0)%Z
  | JsString s => negb (String.eqb s "")
  | JsArray _ | JsObject _ => true
  end.

Definition typeof (v : JsValue) : string :=
  match v with
  | JsUndefined => "undefined"
  | JsNull => "object"
  | JsBoolean _ => "boolean"
  | JsNumber _ => "number"
  | JsString _ => "string"
  | JsArray _ | JsObject _ => "object"
  end.

(** [data[key]] for the three collection keys; an array has none of them. *)
Definition data_items (data : JsValue) : Coll Item.t :=
  match data with JsObject o => snap_items o | _ => Absent end.
Definition data_found_reports (data : JsValue) : Coll FoundReport.t :=
  match data with JsObject o => snap_found_reports o | _ => Absent end.
Definition data_claims (data : JsValue) : Coll Claim.t :=
  match data with JsObject o => snap_claims o | _ => Absent end.

(** ** The localStorage slot and the monad of the API *)

(** The slot [DB_KEY]: [None] when the key is absent, empty or its text
    does not parse; otherwise the parsed store, in which a missing [seq]
    reads as both counters at 0 ([db.seq = db.seq || {...}]). *)
Definition LocalStorage := option Store.

Definition M (A : Type) : Type := LocalStorage → Completion A * LocalStorage.

Definition ret {A} (a : A) : M A := λ ls, (Normal a, ls).

Definition throw {A} : M A := λ ls, (Throw, ls).

Definition bind {A B} (m : M A) (k : A → M B) : M B :=
  λ ls, match m ls with
        | (Normal a, ls') => k a ls'
        | (Throw, ls') => (Throw, ls')
        end.

Notation "'let*' x ':=' m 'in' k" := (bind m (λ x, k))
  (at level 10, x name, m at level 100, k at level 200).

Definition lift {A} (c : Completion A) : M A :=
  match c with Normal a => ret a | Throw => throw end.

Definition save (db : Store) : M unit := λ _, (Normal tt, Some db).

Definition init : M Store :=
  let db := mkStore [] [] [] (mkSeq 0 0) in
  let* _ := save db in ret db.

Definition load : M Store :=
  λ ls, match ls with
        | None => init ls
        | Some db => ret db ls
        end.

(** ** The API *)

Record ItemFields := mkItemFields {
  f_itemName : string;
  f_studentId : string;
  f_ownerName : string;
  f_strand : option string;
  f_email : option string;
  f_contact : option string;
  f_photoDataUrl : option string;
  f_category : option string
}.

Definition addItem (uuid now : string) (f : ItemFields) : M Item.t :=
  let* db := load in
  let id := uuid in
  let item :=
    Item.mk id (f_itemName f) (f_studentId f) (f_ownerName f)
      (or_else (f_category f) "other")
      (or_null (f_strand f)) (or_null (f_email f)) (or_null (f_contact f))
      (or_null (f_photoDataUrl f))
      "registered" now None None in
  let* _ := save (mkStore (items db ++ [item]) (found_reports db) (claims db) (seq db)) in
  ret item.

Definition getItem (id : string) : M (option Item.t) :=
  let* db := load in
  ret (snd <$> Array_find (λ x, String.eqb (Item.id x) id) (items db)).

Record ReportFields := mkReportFields {
  f_itemId : string;
  f_finderName : string;
  f_location : string;
  f_photo : option string
}.

Definition addFoundReport (now : string) (f : ReportFields) : M FoundReport.t :=
  let* db := load in
  let n := Number_add1 (or0 (seq_found_reports (seq db))) in
  let report :=
    FoundReport.mk n (f_itemId f) (f_finderName f) (f_location f)
      (or_null (f_photo f)) "pending" now in
  let* _ := save (mkStore (items db) (found_reports db ++ [report]) (claims db)
          (mkSeq n (seq_claims (seq db)))) in
  ret report.

(** [if (report.photoPath)] *)
Definition has_photo (r : FoundReport.t) : bool :=
  match FoundReport.photoPath r with
  | Some p => negb (String.eqb p "")
  | None => false
  end.

Definition verifyReportMoveToLost (reportId : N) : M bool :=
  let* db := load in
  let rid := reportId in
  match Array_find (λ x, FoundReport.id x =? rid) (found_reports db) with
  | None => ret false
  | Some (i, report) =>
    match Array_find (λ x, String.eqb (Item.id x) (FoundReport.itemId report)) (items db) with
    | None => ret false
    | Some (j, item) =>
      let report' := FoundReport.set_status "verified" report in
      let item1 := Item.set_status "lost" item in
      let item2 :=
        if has_photo report
        then Item.set_foundPhotoPath (FoundReport.photoPath report) item1
        else item1 in
      let* _ := save (mkStore (<[j := item2]> (items db))
              (<[i := report']> (found_reports db)) (claims db) (seq db)) in
      ret true
    end
  end.

Definition addClaim (now : string) (itemId claimantName : string) : M (option Claim.t) :=
  let* db := load in
  match Array_find (λ x, String.eqb (Item.id x) itemId) (items db) with
  | None => ret None
  | Some (j, item) =>
    let n := Number_add1 (or0 (seq_claims (seq db))) in
    let claim := Claim.mk n itemId claimantName now in
    let item' :=
      Item.set_lastClaimedAt (Some (Claim.createdAt claim))
        (Item.set_status "claimed" item) in
    let* _ := save (mkStore (<[j := item']> (items db)) (found_reports db)
            (claims db ++ [claim]) (mkSeq (seq_found_reports (seq db)) n)) in
    ret (Some claim)
  end.

Definition exportAll : M Store := load.

(** The loop of [mergeArray]: [existing] is built once, before the loop. *)
Fixpoint push_missing {K A} `{Countable K} (uniqueBy : A → K)
    (existing : gmap K A) (incoming : list (option A)) (arr : list A)
  : Completion (list A) :=
  match incoming with
  | [] => Normal arr
  | None :: _ => Throw                     (* uniqueBy(null) *)
  | Some item :: rest =>
    push_missing uniqueBy existing rest
      (if Map_has existing (uniqueBy item) then arr else arr ++ [item])
  end.

Definition mergeArray {K A} `{Countable K} (uniqueBy : A → K)
    (arr : list A) (incoming : Coll A) : Completion (list A) :=
  let existing := new_Map ((λ x, (uniqueBy x, x)) <$> arr) in
  match incoming with
  | Absent => push_missing uniqueBy existing [] arr
  | Elems l => push_missing uniqueBy existing l arr
  | NotIterable => Throw
  end.

Definition importMerge (data : JsValue) : M bool :=
  if negb (ToBoolean data) || negb (String.eqb (typeof data) "object")
  then ret false
  else
    let* db := load in
    let* its := lift (mergeArray Item.id (items db) (data_items data)) in
    let* frs := lift (mergeArray FoundReport.id (found_reports db) (data_found_reports data)) in
    let* cls := lift (mergeArray Claim.id (claims db) (data_claims data)) in
    let sf :=
      Math_max (or0 (seq_found_reports (seq db))
                  :: ((FoundReport.id <$> frs) ++ [0])) in
    let sc :=
      Math_max (or0 (seq_claims (seq db)) :: ((Claim.id <$> cls) ++ [0])) in
    let* _ := save (mkStore its frs cls (mkSeq sf sc)) in
    ret true.

(** ** [Array.prototype.sort]

    The sort is the host's. ECMAScript promises a stable sort only for a
    comparator that is consistent, which asks [comparefn(a, a) = 0]; for the
    comparator of the listings, which never answers 0, the order is left to
    the implementation. The model is V8's (builtins/array-sort.tq), the
    engine of Chrome and Node. An array of fewer than 64 elements is sorted
    as a single run: [CountAndMakeRun] finds the run the array starts with,
    reversing it in place when its first step is descending, and
    [BinaryInsertionSort] inserts the remaining elements one by one. Longer
    arrays are cut into such runs which are then merged; the merge is not
    modelled, [Array_sort] treats every array as one run. *)

Section ArraySort.
Context {A : Type} (comparefn : A → A → Z).

(** The loop of CountAndMakeRun,
    [order = comparefn(currentElement, previousElement);
     if (isDescending) { if (order >= 0) break; } else { if (order < 0) break; }
     previousElement = currentElement; ++runLength;]:
    how many of the elements after [previousElement] continue the run. *)
Fixpoint run_tail (isDescending : bool) (previousElement : A)
    (rest : list A) : nat :=
  match rest with
  | [] => O
  | currentElement :: rest' =>
    let order := comparefn currentElement previousElement in
    if (if isDescending then (0 <=? order)%Z else (order <? 0)%Z)
    then O
    else S (run_tail isDescending currentElement rest')
  end.

(** [elementLow = work[low]; elementHigh = work[low - 1];
     order = comparefn(elementLow, elementHigh); isDescending = order < 0;
     ... if (isDescending) ReverseRange(work, lowArg, lowArg + runLength);]
    with [lowArg = 0] and [low = 1]. Returns the work array and the length
    of its first run. *)
Definition CountAndMakeRun (work : list A) : list A * nat :=
  match work with
  | elementHigh :: elementLow :: rest =>
    let order := comparefn elementLow elementHigh in
    let isDescending := (order <? 0)%Z in
    let runLength := S (S (run_tail isDescending elementLow rest)) in
    (if isDescending
     then reverse (take runLength work) ++ drop runLength work
     else work,
     runLength)
  | _ => (work, length work)
  end.

(** The search loop of BinaryInsertionSort:
    [while (left < right) { mid = left + ((right - left) >> 1);
       order = comparefn(pivot, work[mid]);
       if (order < 0) right = mid; else left = mid + 1; }].
    The interval shrinks at every turn, so [right - left] turns are
    enough. *)
Fixpoint insertion_point (turns : nat) (work : list A) (pivot : A)
    (left right : nat) : nat :=
  match turns with
  | O => left
  | S turns' =>
    if (left <? right)%nat then
      let mid := (left + Nat.div2 (right - left))%nat in
      match work !! mid with
      | Some e =>
        if (comparefn pivot e <? 0)%Z
        then insertion_point turns' work pivot left mid
        else insertion_point turns' work pivot (mid + 1)%nat right
      | None => left
      end
    else left
  end.

(** [sorted] is the part of the work array below [start], [rest] the part
    from [start] on; the pivot is slid into place at [left]. *)
Fixpoint BinaryInsertionSort (sorted rest : list A) : list A :=
  match rest with
  | [] => sorted
  | pivot :: rest' =>
    let left :=
      insertion_point (length sorted) sorted pivot O (length sorted) in
    BinaryInsertionSort (take left sorted ++ pivot :: drop left sorted) rest'
  end.

Definition Array_sort (arr : list A) : list A :=
  if (length arr <? 2)%nat then arr
  else
    let '(work, runLength) := CountAndMakeRun arr in
    BinaryInsertionSort (take runLength work) (drop runLength work).
End ArraySort.

(** [(a, b) => (a.createdAt < b.createdAt ? 1 : -1)]; strings compare by
    code unit. *)
Definition byCreatedAt (a b : Item.t) : Z :=
  if String.ltb (Item.createdAt a) (Item.createdAt b) then 1%Z else (-1)%Z.

Definition listItemsByStudent (studentId : string) : M (list Item.t) :=
  let* db := load in
  ret (Array_sort byCreatedAt
         (List.filter (λ item, String.eqb (Item.studentId item) studentId)
            (items db))).

(** ** Runs of the API *)

Inductive Op : Type :=
| OpAddItem (uuid now : string) (f : ItemFields)
| OpAddFoundReport (now : string) (f : ReportFields)
| OpVerifyReportMoveToLost (reportId : N)
| OpAddClaim (now itemId claimantName : string)
| OpImportMerge (data : JsValue).

(** The slot after a call. *)
Definition exec (op : Op) (ls : LocalStorage) : LocalStorage :=
  match op with
  | OpAddItem uuid now f => snd (addItem uuid now f ls)
  | OpAddFoundReport now f => snd (addFoundReport now f ls)
  | OpVerifyReportMoveToLost reportId => snd (verifyReportMoveToLost reportId ls)
  | OpAddClaim now itemId claimantName => snd (addClaim now itemId claimantName ls)
  | OpImportMerge data => snd (importMerge data ls)
  end.

(** The slots a sequence of calls produces from a browser that has never
    run the application. *)
Inductive reachable : LocalStorage → Prop :=
| reachable_fresh : reachable None
| reachable_exec ls op : reachable ls → reachable (exec op ls).

(** The store a call works on: what [load] returns. *)
Definition current (ls : LocalStorage) : Store :=
  match ls with
  | Some db => db
  | None => mkStore [] [] [] (mkSeq 0 0)
  end.

(** The value [exportAll] hands out, as an import payload. *)
Definition as_payload (db : Store) : JsValue :=
  JsObject (mkSnapshot (Elems (Some <$> items db))
              (Elems (Some <$> found_reports db))
              (Elems (Some <$> claims db))).

(** * Vocabulary of the properties *)

(** The item as [verifyReportMoveToLost] leaves it. *)
Definition moved_to_lost (report : FoundReport.t) (item : Item.t) : Item.t :=
  if has_photo report
  then Item.set_foundPhotoPath (FoundReport.photoPath report)
         (Item.set_status "lost" item)
  else Item.set_status "lost" item.

(** The records of a collection an import looks at. *)
Definition records {A} (c : Coll A) : list A :=
  match c with
  | Elems l => omap id l
  | Absent | NotIterable => []
  end.

(** A collection that [mergeArray] can walk: absent, or an array without
    null elements. *)
Definition valid_coll {A} (c : Coll A) : Prop :=
  match c with
  | Absent => True
  | Elems l => Forall is_Some l
  | NotIterable => False
  end.

(** The incoming records that [mergeArray] pushes. *)
Definition missing {K A} `{Countable K} (uniqueBy : A → K)
    (arr : list A) (c : Coll A) : list A :=
  List.filter (λ x, negb (bool_decide (uniqueBy x ∈ uniqueBy <$> arr)))
    (records c).

(** An import payload that [importMerge] is meant for: an object whose
    three collections are each absent or an array of records. *)
Definition structurally_valid (data : JsValue) : Prop :=
  match data with
  | JsObject o =>
    valid_coll (snap_items o) ∧ valid_coll (snap_found_reports o) ∧
    valid_coll (snap_claims o)
  | _ => False
  end.

(** The store an import leaves when no collection makes it throw. *)
Definition merged (db : Store) (data : JsValue) : Store :=
  let its := items db ++ missing Item.id (items db) (data_items data) in
  let frs :=
    found_reports db
      ++ missing FoundReport.id (found_reports db) (data_found_reports data) in
  let cls := claims db ++ missing Claim.id (claims db) (data_claims data) in
  mkStore its frs cls
    (mkSeq (Math_max (or0 (seq_found_reports (seq db))
                        :: ((FoundReport.id <$> frs) ++ [0])))
           (Math_max (or0 (seq_claims (seq db)) :: ((Claim.id <$> cls) ++ [0])))).

(** [m] is the greatest of the numbers [l]. *)
Definition greatest (m : N) (l : list N) : Prop :=
  m ∈ l ∧ ∀ x, x ∈ l → x ≤ m.

(** Each counter is at least every id of its collection. *)
Definition seq_covers (db : Store) : Prop :=
  (∀ n, n ∈ FoundReport.id <$> found_reports db →
        n ≤ seq_found_reports (seq db)) ∧
  (∀ n, n ∈ Claim.id <$> claims db → n ≤ seq_claims (seq db)).

(** One step of registered → lost → claimed, or no step. *)
Definition forward (s s' : string) : Prop :=
  s' = s ∨ (s = "registered" ∧ s' = "lost") ∨ (s = "lost" ∧ s' = "claimed").

(** A plain object, as opposed to an array or a primitive. *)
Definition is_record (data : JsValue) : Prop :=
  match data with JsObject _ => True | _ => False end.

(** The comparator of the listings, on any record with a timestamp. *)
Definition newest_first {A} (key : A → string) (a b : A) : Z :=
  if String.ltb (key a) (key b) then 1%Z else (-1)%Z.

(** [x] may stand before [y]: [x] is not older than [y]. *)
Definition not_older {A} (key : A → string) (x y : A) : Prop :=
  String.ltb (key x) (key y) = false.

(** [x] stands before [y] in a listing by createdAt descending. *)
Definition createdAt_descending (x y : Item.t) : Prop :=
  String.leb (Item.createdAt y) (Item.createdAt x) = true.

(** Items with equal createdAt stand in [res] in the order they have in
    [src]. *)
Definition keeps_insertion_order (src res : list Item.t) : Prop :=
  ∀ i j x y,
    (i < j)%nat → src !! i = Some x → src !! j = Some y →
    Item.createdAt x = Item.createdAt y →
    ∃ i' j', (i' < j')%nat ∧ res !! i' = Some x ∧ res !! j' = Some y.

(** * Sample stores and payloads *)

Definition wallet : Item.t :=
  Item.mk "a1" "Blue Wallet" "S1" "Ana" "wallets" None None None (Some "x")
    "registered" "2024-01-01T08:00:00.000Z" None None.

Definition wallet2 : Item.t :=
  Item.mk "a2" "Red Tumbler" "S2" "Bea" "tumblers" None None None (Some "y")
    "lost" "2024-01-03T08:00:00.000Z" None None.

Definition wallet_report (photo : option string) : FoundReport.t :=
  FoundReport.mk 1 "a1" "Ben" "Library" photo "pending"
    "2024-01-01T10:00:00.000Z".

Definition report57 : FoundReport.t :=
  FoundReport.mk 57 "a1" "Ben" "Gym" None "pending" "2024-02-01T10:00:00.000Z".

Definition snapshot57 : JsValue :=
  JsObject (mkSnapshot Absent (Elems [Some report57]) (Elems [])).

Definition snapshot_items : JsValue :=
  JsObject (mkSnapshot (Elems [Some (Item.set_status "claimed" wallet); Some wallet2])
              Absent Absent).

(** A slot reached by an import followed by a new report. *)
Definition imported_then_reported : LocalStorage :=
  exec (OpAddFoundReport "2024-02-02T10:00:00.000Z"
          (mkReportFields "a1" "Cy" "Canteen" None))
    (exec (OpImportMerge snapshot57) None).

(** A report and a claim whose id is 2^53, the least integer [n] for which
    [n + 1] is not a double. *)
Definition report_2_53 : FoundReport.t :=
  FoundReport.mk (2 ^ 53) "a1" "Ben" "Gym" None "pending"
    "2024-02-01T10:00:00.000Z".

Definition claim_2_53 : Claim.t :=
  Claim.mk (2 ^ 53) "a1" "Ana" "2024-02-03T10:00:00.000Z".

Definition snapshot_2_53 : JsValue :=
  JsObject (mkSnapshot Absent (Elems [Some report_2_53]) (Elems [Some claim_2_53])).

(** A slot with one registered item. *)
Definition registered_only : LocalStorage :=
  exec (OpAddItem "a1" "2024-01-01T08:00:00.000Z"
          (mkItemFields "Blue Wallet" "S1" "Ana" None None None (Some "x")
             (Some "wallets")))
    None.

(** One registered item, then the import of the records with id 2^53. *)
Definition imported_2_53 : LocalStorage :=
  exec (OpImportMerge snapshot_2_53) registered_only.

(** The item has been claimed, then a finder reports it. *)
Definition claimed_and_reported : LocalStorage :=
  exec (OpAddFoundReport "2024-01-03T08:00:00.000Z"
          (mkReportFields "a1" "Ben" "Library" None))
    (exec (OpAddClaim "2024-01-02T08:00:00.000Z" "a1" "Ana") registered_only).

Definition pen_fields : ItemFields :=
  mkItemFields "Pen" "S1" "Ana" None None None (Some "p") None.

Definition cap_fields : ItemFields :=
  mkItemFields "Cap" "S1" "Ana" None None None (Some "c") None.

Definition pen : Item.t :=
  Item.mk "a1" "Pen" "S1" "Ana" "other" None None None (Some "p")
    "registered" "2024-03-01T08:00:00.000Z" None None.

Definition cap : Item.t :=
  Item.mk "b1" "Cap" "S1" "Ana" "other" None None None (Some "c")
    "registered" "2024-03-01T08:00:00.000Z" None None.

(** Two items of one student registered within the same millisecond. *)
Definition same_instant : LocalStorage :=
  exec (OpAddItem "b1" "2024-03-01T08:00:00.000Z" cap_fields)
    (exec (OpAddItem "a1" "2024-03-01T08:00:00.000Z" pen_fields) None).

(** * The queries of the API *)

Definition listLostItems : M (list Item.t) :=
  let* db := load in
  ret (Array_sort byCreatedAt
         (List.filter (λ item, String.eqb (Item.status item) "lost")
            (items db))).

(** A pending report with the fields joined from its item:
    [{...report, itemName, ownerName, itemPhoto}]. *)
Module PendingRow.
Record t := mk {
  report : FoundReport.t;
  itemName : string;
  ownerName : string;
  itemPhoto : option string
}.
End PendingRow.

(** [db.items.find((x) => x.id === id)], without the position. *)
Definition item_of (db : Store) (id : string) : option Item.t :=
  snd <$> Array_find (λ x, String.eqb (Item.id x) id) (items db).

Definition listPendingReportsWithItem : M (list PendingRow.t) :=
  let* db := load in
  ret ((λ report,
          let item := item_of db (FoundReport.itemId report) in
          PendingRow.mk report
            (or_else (Item.itemName <$> item) "Unknown")
            (or_else (Item.ownerName <$> item) "")
            (or_null (item ≫= Item.photoPath)))
         <$> Array_sort (newest_first FoundReport.createdAt)
               (List.filter
                  (λ report, String.eqb (FoundReport.status report) "pending")
                  (found_reports db))).

(** A claim with the fields joined from its item:
    [{...claim, itemName, ownerName, studentId}]. *)
Module ClaimRow.
Record t := mk {
  claim : Claim.t;
  itemName : string;
  ownerName : string;
  studentId : string
}.
End ClaimRow.

(** [db.claims.sort(...)] sorts the array of the loaded store in place; the
    store is not saved, so the slot keeps its order. *)
Definition listClaimsWithItem : M (list ClaimRow.t) :=
  let* db := load in
  let db :=
    mkStore (items db) (found_reports db)
      (Array_sort (newest_first Claim.createdAt) (claims db)) (seq db) in
  ret ((λ claim,
          let item := item_of db (Claim.itemId claim) in
          ClaimRow.mk claim
            (or_else (Item.itemName <$> item) "")
            (or_else (Item.ownerName <$> item) "")
            (or_else (Item.studentId <$> item) ""))
         <$> claims db).

(** An array length as a Number; exact, a length is below 2^32. *)
Definition Number_of_nat (n : nat) : float :=
  PrimFloat.of_uint63 (Uint63.of_Z (Z.of_nat n)).

(** An integer below 2^53 in absolute value as a Number. *)
Definition Number_of_Z (z : Z) : float :=
  if (z <? 0)%Z
  then PrimFloat.opp (PrimFloat.of_uint63 (Uint63.of_Z (- z)))
  else PrimFloat.of_uint63 (Uint63.of_Z z).

(** [Math.round(x)]: NaN, the infinities, the zeros and the integers are
    returned as they are; otherwise the nearest integer, the greater one on
    a tie, computed exactly from mantissa and exponent, with -0 for a result
    of 0 from a negative argument. *)
Definition Math_round (x : float) : float :=
  match Prim2SF x with
  | S754_finite s m e =>
    if (0 <=? e)%Z then x
    else
      let d := (2 ^ (- e))%Z in
      let num := if s then Z.neg m else Z.pos m in
      let z := ((2 * num + d) / (2 * d))%Z in
      if (z =? 0)%Z
      then (if s then PrimFloat.opp PrimFloat.zero else PrimFloat.zero)
      else Number_of_Z z
  | _ => x
  end.

Record Analytics := mkAnalytics {
  total : nat;
  claimed : nat;
  lost : nat;
  pendingReports : nat;
  recoveryRate : float
}.

(** [arr.filter((x) => x.status === s).length] *)
Definition count_status {A} (status : A → string) (s : string)
    (arr : list A) : nat :=
  length (List.filter (λ x, String.eqb (status x) s) arr).

Definition analytics : M Analytics :=
  let* db := load in
  let total := length (items db) in
  let claimed := count_status Item.status "claimed" (items db) in
  let lost := count_status Item.status "lost" (items db) in
  let pendingReports :=
    count_status FoundReport.status "pending" (found_reports db) in
  let recoveryRate :=
    if (total =? 0)%nat then PrimFloat.zero
    else Math_round
           (PrimFloat.mul
              (PrimFloat.div (Number_of_nat claimed) (Number_of_nat total))
              (Number_of_nat 100)) in
  ret (mkAnalytics total claimed lost pendingReports recoveryRate).

(** * Item ids and categories *)

(** [v.toString(16)] on a non-negative integer. *)
Definition Number_toString16 (v : N) : string :=
  match v with
  | 0 => "0"
  | N.pos p => HexString.Raw.of_pos p ""
  end.

(** [template.replace(/[xy]/g, function (c) {...})] with the callback of
    [uuidv4]: [r = (Math.random() * 16) | 0] and
    [v = c === "x" ? r : (r & 0x3) | 0x8]. [rand k] is the value of [r] at
    the [k]-th call. *)
Fixpoint replace_xy (template : string) (rand : nat → N) (k : nat) : string :=
  match template with
  | EmptyString => EmptyString
  | String c rest =>
    if Ascii.eqb c "x" || Ascii.eqb c "y" then
      let r := rand k in
      let v := if Ascii.eqb c "x" then r else N.lor (N.land r 3) 8 in
      String.append (Number_toString16 v) (replace_xy rest rand (S k))
    else String c (replace_xy rest rand k)
  end.

(** [randomUUID] is the result of [crypto.randomUUID()] where the host has
    it. *)
Definition uuidv4 (randomUUID : option string) (rand : nat → N) : string :=
  match randomUUID with
  | Some id => id
  | None => replace_xy "xxxxxxxx-xxxx-4xxx-yxxx-xxxxxxxxxxxx" rand O
  end.

(** Canonicalize of a case-insensitive RegExp without the u flag, as far as
    matching an ASCII letter goes: a to z become A to Z, and no other code
    unit canonicalizes to an ASCII letter, so the others are left alone. *)
Definition Canonicalize (c : ascii) : ascii :=
  let n := nat_of_ascii c in
  if (97 <=? n)%nat && (n <=? 122)%nat then ascii_of_nat (n - 32) else c.

(** A pattern of plain letters matches at the start of [s]. *)
Fixpoint matches_here (pattern s : string) : bool :=
  match pattern with
  | EmptyString => true
  | String p pattern' =>
    match s with
    | EmptyString => false
    | String c s' =>
      Ascii.eqb (Canonicalize p) (Canonicalize c) && matches_here pattern' s'
    end
  end.

(** [/a|b|c/i.test(s)]: one of the alternatives matches somewhere in [s]. *)
Fixpoint RegExp_test (alternatives : list string) (s : string) : bool :=
  existsb (λ pattern, matches_here pattern s) alternatives
  || match s with
     | EmptyString => false
     | String _ s' => RegExp_test alternatives s'
     end.

Definition inferCategoryFromName (name : option string) : string :=
  match name with
  | None => "other"
  | Some name =>
    if String.eqb name "" then "other"
    else if RegExp_test ["phone"; "iphone"; "android"; "samsung"; "oppo"; "vivo"] name
    then "phones"
    else if RegExp_test ["wallet"] name then "wallets"
    else if RegExp_test ["tumbler"; "bottle"; "hydro"] name then "tumblers"
    else "other"
  end.

(** * Vocabulary of the further properties *)

(** A string field is never stored empty: it is null or has a character. *)
Definition not_empty (o : option string) : Prop := o ≠ Some "".

(** How [x || null] stores an optional string: null for an absent or empty
    one, the string itself otherwise. *)
Definition null_if_empty (given stored : option string) : Prop :=
  (given = None ∨ given = Some "" → stored = None) ∧
  (∀ s, given = Some s → s ≠ "" → stored = Some s).

(** No two found reports share an id while their counter is below 2^53, and
    no two claims while theirs is. *)
Definition unique_ids (db : Store) : Prop :=
  (seq_found_reports (seq db) < 2 ^ 53 →
   NoDup (FoundReport.id <$> found_reports db)) ∧
  (seq_claims (seq db) < 2 ^ 53 → NoDup (Claim.id <$> claims db)).

(** An import whose snapshot does not repeat an id within its found
    reports or within its claims; any other call. *)
Definition repeats_no_id (op : Op) : Prop :=
  match op with
  | OpImportMerge data =>
    NoDup (FoundReport.id <$> records (data_found_reports data)) ∧
    NoDup (Claim.id <$> records (data_claims data))
  | _ => True
  end.

(** The slots reached by calls that all satisfy [P]. *)
Inductive reachable_by (P : Op → Prop) : LocalStorage → Prop :=
| reachable_by_fresh : reachable_by P None
| reachable_by_exec ls op :
    reachable_by P ls → P op → reachable_by P (exec op ls).

(** Each counter is 0 or the id of a record of its collection. *)
Definition seq_attained (db : Store) : Prop :=
  (seq_found_reports (seq db) = 0 ∨
   seq_found_reports (seq db) ∈ FoundReport.id <$> found_reports db) ∧
  (seq_claims (seq db) = 0 ∨ seq_claims (seq db) ∈ Claim.id <$> claims db).

(** [x] stands before [y] in a listing by [key] descending. *)
Definition descending_by {A} (key : A → string) (x y : A) : Prop :=
  String.leb (key y) (key x) = true.

(** A function of the API that always completes normally and leaves the
    store as it was. *)
Definition read_only {A} (m : M A) : Prop :=
  ∀ ls, (∃ v, fst (m ls) = Normal v) ∧ current (snd (m ls)) = current ls.

(** [1] when the status is [s], else [0]. *)
Definition one_if (status s : string) : nat :=
  if String.eqb status s then 1%nat else 0%nat.

(** [u] has the shape of [template]: a lowercase hexadecimal digit for
    each x, one of 8, 9, a, b for each y, the character itself otherwise. *)
Fixpoint has_shape (template u : string) : bool :=
  match template, u with
  | EmptyString, EmptyString => true
  | String t template', String c u' =>
    (if Ascii.eqb t "x"
     then existsb (Ascii.eqb c) (list_ascii_of_string "0123456789abcdef")
     else if Ascii.eqb t "y"
     then existsb (Ascii.eqb c) (list_ascii_of_string "89ab")
     else Ascii.eqb c t)
    && has_shape template' u'
  | _, _ => false
  end.

(** The same string up to the case of the letters a to z. *)
Fixpoint same_letters (a b : string) : Prop :=
  match a, b with
  | EmptyString, EmptyString => True
  | String x a', String y b' => Canonicalize x = Canonicalize y ∧ same_letters a' b'
  | _, _ => False
  end.

(** The order in which [inferCategoryFromName] tries the categories. *)
Definition category_rank (category : string) : nat :=
  if String.eqb category "phones" then 3%nat
  else if String.eqb category "wallets" then 2%nat
  else if String.eqb category "tumblers" then 1%nat
  else 0%nat.

(** * Properties *)

(** ** The monad, [load] and [Array_find] *)

Lemma load_current ls : load ls = (Normal (current ls), Some (current ls)).
Proof. by destruct ls. Qed.

Lemma bind_load {A} (k : Store → M A) ls :
  bind load k ls = k (current ls) (Some (current ls)).
Proof. unfold bind. by rewrite load_current. Qed.

Lemma bind_save {A} (k : unit → M A) db ls :
  bind (save db) k ls = k tt (Some db).
Proof. done. Qed.

Lemma current_Some db : current (Some db) = db.
Proof. done. Qed.

Lemma Array_find_Some {A} (pred : A → bool) arr i x :
  Array_find pred arr = Some (i, x) ↔
  arr !! i = Some x ∧ pred x = true ∧
  ∀ j y, arr !! j = Some y → (j < i)%nat → pred y ≠ true.
Proof. unfold Array_find. by rewrite list_find_Some. Qed.

Lemma Array_find_None {A} (pred : A → bool) arr :
  Array_find pred arr = None ↔ ∀ x, x ∈ arr → pred x ≠ true.
Proof.
  unfold Array_find. rewrite list_find_None, List.Forall_forall.
  by setoid_rewrite list_elem_of_In.
Qed.

Lemma Array_find_is_Some {A} (pred : A → bool) arr x :
  x ∈ arr → pred x = true → is_Some (Array_find pred arr).
Proof. intros Hin Hp. unfold Array_find. by eapply list_find_elem_of. Qed.

(** Replacing the object found by one that still satisfies the predicate
    leaves it the first match. *)
Lemma Array_find_insert {A} (pred : A → bool) arr i x x' :
  Array_find pred arr = Some (i, x) → pred x' = true →
  Array_find pred (<[i := x']> arr) = Some (i, x').
Proof.
  rewrite !Array_find_Some. intros (Hi & _ & Hmin) Hp. split_and!.
  - apply list_lookup_insert_eq. by eapply lookup_lt_Some.
  - done.
  - intros j y Hj Hlt. rewrite list_lookup_insert_ne in Hj by lia. eauto.
Qed.

Lemma getItem_current id ls :
  getItem id ls =
  (Normal (snd <$> Array_find (λ x, String.eqb (Item.id x) id) (items (current ls))),
   Some (current ls)).
Proof. unfold getItem. by rewrite bind_load. Qed.

(** ** The scenario of the specification, run on the embedding *)

Example scenario_addFoundReport :
  fst (addFoundReport "2024-01-01T10:00:00.000Z"
         (mkReportFields "a1" "Ben" "Library" None) registered_only)
  = Normal (wallet_report None).
Proof. reflexivity. Qed.

Example scenario_verify_then_claim :
  let reported :=
    exec (OpAddFoundReport "2024-01-01T10:00:00.000Z"
            (mkReportFields "a1" "Ben" "Library" None)) registered_only in
  let verified := exec (OpVerifyReportMoveToLost 1) reported in
  let claimed := exec (OpAddClaim "2024-01-02T09:00:00.000Z" "a1" "Ana") verified in
  fst (verifyReportMoveToLost 1 reported) = Normal true ∧
  fst (getItem "a1" verified) = Normal (Some (Item.set_status "lost" wallet)) ∧
  fst (addClaim "2024-01-02T09:00:00.000Z" "a1" "Ana" verified)
    = Normal (Some (Claim.mk 1 "a1" "Ana" "2024-01-02T09:00:00.000Z")) ∧
  Item.status <$> items (current claimed) = ["claimed"].
Proof. cbn zeta. split_and!; reflexivity. Qed.

(** Items registered one after the other are listed latest first. *)
Example listing_latest_first :
  Item.id <$> Array_sort byCreatedAt
    [wallet;
     Item.mk "a3" "Phone" "S1" "Ana" "phones" None None None (Some "z")
       "registered" "2024-01-02T08:00:00.000Z" None None;
     wallet2;
     Item.mk "a4" "Cap" "S1" "Ana" "other" None None None (Some "w")
       "registered" "2023-12-31T23:59:59.999Z" None None]
  = ["a2"; "a3"; "a1"; "a4"].
Proof. reflexivity. Qed.

(** ** Not-found paths *)

Lemma verifyReportMoveToLost_no_report ls reportId :
  Array_find (λ x, FoundReport.id x =? reportId) (found_reports (current ls)) = None →
  verifyReportMoveToLost reportId ls = (Normal false, Some (current ls)).
Proof. intros H. unfold verifyReportMoveToLost. by rewrite bind_load, H. Qed.

Lemma verifyReportMoveToLost_no_item ls reportId i report :
  Array_find (λ x, FoundReport.id x =? reportId) (found_reports (current ls))
    = Some (i, report) →
  Array_find (λ x, String.eqb (Item.id x) (FoundReport.itemId report))
    (items (current ls)) = None →
  verifyReportMoveToLost reportId ls = (Normal false, Some (current ls)).
Proof.
  intros H1 H2. unfold verifyReportMoveToLost. by rewrite bind_load, H1, H2.
Qed.

Lemma addClaim_no_item ls now itemId claimantName :
  Array_find (λ x, String.eqb (Item.id x) itemId) (items (current ls)) = None →
  addClaim now itemId claimantName ls = (Normal None, Some (current ls)).
Proof. intros H. unfold addClaim. by rewrite bind_load, H. Qed.

(** C5. [verifyReportMoveToLost] on a report id that no report carries, or
    whose report (the one the lookup finds) names an item id that no item
    carries, returns false; [addClaim] on an item id that no item carries
    returns null. Neither throws, and the store is what it was: same items,
    reports, claims and counters. *)
Theorem not_found_leaves_store_unchanged (ls : LocalStorage) :
  (∀ reportId,
      (∀ r, r ∈ found_reports (current ls) → FoundReport.id r ≠ reportId) →
      fst (verifyReportMoveToLost reportId ls) = Normal false ∧
      current (snd (verifyReportMoveToLost reportId ls)) = current ls) ∧
  (∀ reportId i report,
      Array_find (λ x, FoundReport.id x =? reportId) (found_reports (current ls))
        = Some (i, report) →
      (∀ x, x ∈ items (current ls) → Item.id x ≠ FoundReport.itemId report) →
      fst (verifyReportMoveToLost reportId ls) = Normal false ∧
      current (snd (verifyReportMoveToLost reportId ls)) = current ls) ∧
  (∀ now itemId claimantName,
      (∀ x, x ∈ items (current ls) → Item.id x ≠ itemId) →
      fst (addClaim now itemId claimantName ls) = Normal None ∧
      current (snd (addClaim now itemId claimantName ls)) = current ls).
Proof.
  split_and!.
  - intros rid Hno. rewrite verifyReportMoveToLost_no_report; [done|].
    apply Array_find_None. intros r Hr Heq. apply (Hno r Hr). by apply N.eqb_eq.
  - intros rid i report Hfind Hno.
    rewrite (verifyReportMoveToLost_no_item _ _ _ _ Hfind); [done|].
    apply Array_find_None. intros x Hx Heq. apply (Hno x Hx). by apply String.eqb_eq.
  - intros now itemId name Hno. rewrite addClaim_no_item; [done|].
    apply Array_find_None. intros x Hx Heq. apply (Hno x Hx). by apply String.eqb_eq.
Qed.

Lemma not_found_leaves_store_unchanged_witness :
  (fst (verifyReportMoveToLost 7 (Some (mkStore [wallet] [wallet_report None] [] (mkSeq 1 0))))
     = Normal false ∧
   current (snd (verifyReportMoveToLost 7
     (Some (mkStore [wallet] [wallet_report None] [] (mkSeq 1 0)))))
     = mkStore [wallet] [wallet_report None] [] (mkSeq 1 0)) ∧
  (fst (verifyReportMoveToLost 1 (Some (mkStore [wallet2] [wallet_report None] [] (mkSeq 1 0))))
     = Normal false ∧
   current (snd (verifyReportMoveToLost 1
     (Some (mkStore [wallet2] [wallet_report None] [] (mkSeq 1 0)))))
     = mkStore [wallet2] [wallet_report None] [] (mkSeq 1 0)) ∧
  (fst (addClaim "2024-01-05T08:00:00.000Z" "zz" "Ana"
          (Some (mkStore [wallet] [] [] (mkSeq 0 0)))) = Normal None ∧
   current (snd (addClaim "2024-01-05T08:00:00.000Z" "zz" "Ana"
          (Some (mkStore [wallet] [] [] (mkSeq 0 0)))))
     = mkStore [wallet] [] [] (mkSeq 0 0)).
Proof.
  destruct (not_found_leaves_store_unchanged
              (Some (mkStore [wallet] [wallet_report None] [] (mkSeq 1 0))))
    as (Hreport & _ & _).
  destruct (not_found_leaves_store_unchanged
              (Some (mkStore [wallet2] [wallet_report None] [] (mkSeq 1 0))))
    as (_ & Hitem & _).
  destruct (not_found_leaves_store_unchanged
              (Some (mkStore [wallet] [] [] (mkSeq 0 0))))
    as (_ & _ & Hclaim).
  split; [|split].
  - apply (Hreport 7).
    intros r Hr. apply list_elem_of_singleton in Hr as ->. discriminate.
  - apply (Hitem 1 O (wallet_report None)); [reflexivity|].
    intros x Hx. apply list_elem_of_singleton in Hx as ->. discriminate.
  - apply (Hclaim "2024-01-05T08:00:00.000Z" "zz" "Ana").
    intros x Hx. apply list_elem_of_singleton in Hx as ->. discriminate.
Defined.

(** ** [addClaim] *)

Lemma or0_id n : or0 n = n.
Proof. unfold or0. destruct (N.eqb_spec n 0); congruence. Qed.

(** *** [counter + 1] *)

Lemma Number_add1_exact n : n < 2 ^ 53 → Number_add1 n = n + 1.
Proof.
  intros H. unfold Number_add1.
  destruct (N.ltb_spec n (2 ^ 53)); [reflexivity | lia].
Qed.

Lemma Number_add1_ge n : n ≤ Number_add1 n.
Proof.
  unfold Number_add1.
  destruct (N.ltb_spec n (2 ^ 53)); [lia|].
  destruct ((n <? 2 ^ 54) && (n mod 4 =? 2)); lia.
Qed.

Lemma Number_add1_cases n :
  (n < 2 ^ 53 ∧ Number_add1 n = n + 1) ∨ (2 ^ 53 ≤ n ∧ n ≤ Number_add1 n).
Proof.
  destruct (N.lt_ge_cases n (2 ^ 53)) as [H | H].
  - left. split; [exact H | by apply Number_add1_exact].
  - right. split; [exact H | apply Number_add1_ge].
Qed.

Lemma Number_add1_2_53 : Number_add1 (2 ^ 53) = 2 ^ 53.
Proof. reflexivity. Qed.

(** An integer below 2^53 that the counter covers is less than the next
    id. *)
Lemma Number_add1_above n m : m ≤ n → m < 2 ^ 53 → m < Number_add1 n.
Proof.
  intros Hm Hn. destruct (Number_add1_cases n) as [[_ ->] | [H1 H2]]; lia.
Qed.

Lemma round_to_double_small z : z < 2 ^ 53 → round_to_double z = z.
Proof.
  intros Hz. unfold round_to_double.
  assert (N.log2 z - 52 = 0) as ->.
  { apply N.sub_0_le. destruct (N.eq_dec z 0) as [-> | Hz0]; [done|].
    assert (N.log2 z < 53); [|lia]. apply N.log2_lt_pow2; lia. }
  rewrite N.pow_0_r, N.div_1_r, N.mod_1_r.
  change (2 * 0 <? 1) with true. cbn match. lia.
Qed.

(** A double from 2^53 on has 53 leading bits [q] and a unit of the last
    place [2^e] with [e] at least 1; adding 1 does not lengthen it. *)
Lemma is_double_large n :
  is_double n → 2 ^ 53 ≤ n →
  ∃ q e, n = q * 2 ^ e ∧ 1 ≤ e ∧ 2 ^ 52 ≤ q < 2 ^ 53 ∧ N.log2 (n + 1) - 52 = e.
Proof.
  intros (m & k & -> & Hm & _) Hge.
  assert (0 < m) as Hm0.
  { destruct (N.eq_dec m 0) as [-> | ?]; [|lia]. rewrite N.mul_0_l in Hge. lia. }
  assert (HL : N.log2 (m * 2 ^ k) = k + N.log2 m) by (apply N.log2_mul_pow2; lia).
  assert (Hlm : N.log2 m < 53) by (apply N.log2_lt_pow2; lia).
  assert (HL53 : 53 ≤ N.log2 (m * 2 ^ k)).
  { apply N.log2_le_pow2; [|done]. lia. }
  destruct (N.log2_spec (m * 2 ^ k)) as [Hlo Hhi]; [lia|].
  set (e := k + N.log2 m - 52).
  assert (He : 1 ≤ e ∧ e ≤ k) by lia.
  assert (Hk : 2 ^ k = 2 ^ (k - e) * 2 ^ e).
  { rewrite <- N.pow_add_r. f_equal. lia. }
  assert (HLe : N.log2 (m * 2 ^ k) = 52 + e) by lia.
  rewrite HLe in Hlo, Hhi.
  replace (N.succ (52 + e)) with (53 + e) in Hhi by lia.
  rewrite N.pow_add_r in Hlo, Hhi.
  rewrite Hk in *. rewrite N.mul_assoc in *.
  set (q := m * 2 ^ (k - e)) in *.
  assert (HP : 2 ≤ 2 ^ e).
  { change 2 with (2 ^ 1) at 1. apply N.pow_le_mono_r; lia. }
  remember (2 ^ e) as P eqn:EP.
  assert (Hq : 2 ^ 52 ≤ q < 2 ^ 53) by nia.
  exists q, e. rewrite <- EP. split_and!; try lia.
  assert (N.log2 (q * P + 1) = 52 + e) as ->; [|lia].
  apply N.log2_unique; [lia|].
  replace (N.succ (52 + e)) with (53 + e) by lia.
  rewrite !N.pow_add_r, <- EP. nia.
Qed.

(** [Number_add1] is the addition of doubles: on the integers that are
    doubles it is the exact sum rounded to the nearest double. *)
Lemma Number_add1_rounds n : is_double n → Number_add1 n = round_to_double (n + 1).
Proof.
  intros Hd. destruct (N.lt_ge_cases n (2 ^ 53)) as [Hlt | Hge].
  - rewrite Number_add1_exact by exact Hlt.
    destruct (N.eq_dec (n + 1) (2 ^ 53)) as [-> | Hne]; [reflexivity|].
    rewrite round_to_double_small; lia.
  - destruct (is_double_large n Hd Hge) as (q & e & -> & He & Hq & Hlog).
    unfold round_to_double. rewrite Hlog.
    assert (HP : 2 ≤ 2 ^ e).
    { change 2 with (2 ^ 1) at 1. apply N.pow_le_mono_r; lia. }
    assert (Hdiv : (q * 2 ^ e + 1) / 2 ^ e = q).
    { symmetry. apply (N.div_unique _ _ _ 1); lia. }
    assert (Hmod : (q * 2 ^ e + 1) mod 2 ^ e = 1).
    { symmetry. apply (N.mod_unique _ _ q); lia. }
    rewrite Hdiv, Hmod. unfold Number_add1.
    destruct (N.ltb_spec (q * 2 ^ e) (2 ^ 53)) as [? | _]; [lia|].
    destruct (N.eq_dec e 1) as [-> | He1].
    + change (2 ^ 1) with 2. cbn [N.mul N.ltb N.compare Pos.compare Pos.compare_cont Pos.mul].
      change (2 * 1 <? 2) with false. change (2 <? 2 * 1) with false.
      cbn match.
      destruct (N.ltb_spec (q * 2) (2 ^ 54)) as [_ | ?]; [|lia].
      cbn [andb].
      destruct (N.even q) eqn:Ev.
      * apply N.even_spec in Ev as [h ->].
        destruct (N.eqb_spec (2 * h * 2 mod 4) 2) as [E | _]; [|done].
        exfalso. replace (2 * h * 2) with (h * 4) in E by lia.
        rewrite N.Div0.mod_mul in E. lia.
      * assert (N.odd q = true) as [h ->]%N.odd_spec.
        { rewrite <- N.negb_even, Ev. done. }
        destruct (N.eqb_spec ((2 * h + 1) * 2 mod 4) 2) as [_ | E]; [lia|].
        exfalso. apply E. symmetry. apply (N.mod_unique _ _ h); lia.
    + assert (4 ≤ 2 ^ e).
      { change 4 with (2 ^ 2). apply N.pow_le_mono_r; lia. }
      destruct (N.ltb_spec (2 * 1) (2 ^ e)) as [_ | ?]; [|lia].
      destruct (N.ltb_spec (q * 2 ^ e) (2 ^ 54)) as [? | _]; [nia|].
      done.
Qed.

(** The same on samples around the two thresholds, computed by the
    addition of the primitive doubles. *)
Example Number_add1_is_double_addition :
  Forall (λ n, Prim2SF (PrimFloat.add (Number_of_N n) (Number_of_N 1))
               = Prim2SF (Number_of_N (Number_add1 n)))
    [0; 1; 57; 2 ^ 53 - 2; 2 ^ 53 - 1; 2 ^ 53; 2 ^ 53 + 2; 2 ^ 53 + 4;
     2 ^ 53 + 6; 2 ^ 54 - 4; 2 ^ 54 - 2; 2 ^ 54; 2 ^ 54 + 4; 2 ^ 54 + 8;
     2 ^ 55; 2 ^ 62].
Proof. repeat constructor. Qed.

Lemma addClaim_found ls now itemId claimantName j item :
  Array_find (λ x, String.eqb (Item.id x) itemId) (items (current ls)) = Some (j, item) →
  addClaim now itemId claimantName ls =
  let db := current ls in
  let claim :=
    Claim.mk (Number_add1 (seq_claims (seq db))) itemId claimantName now in
  (Normal (Some claim),
   Some (mkStore
           (<[j := Item.set_lastClaimedAt (Some now) (Item.set_status "claimed" item)]>
              (items db))
           (found_reports db) (claims db ++ [claim])
           (mkSeq (seq_found_reports (seq db)) (Number_add1 (seq_claims (seq db)))))).
Proof.
  intros H. unfold addClaim. rewrite bind_load, H. simpl.
  by rewrite or0_id.
Qed.

(** C4, as the specification words it, fails: after a claim with id 2^53
    has been imported the claims counter is 2^53, and the claim that
    [addClaim] then returns has id 2^53 again, the counter itself and not
    the counter plus one. *)
Lemma addClaim_id_not_counter_plus_one :
  reachable imported_2_53 ∧
  (∃ x, x ∈ items (current imported_2_53) ∧ Item.id x = "a1") ∧
  ∃ claim,
    fst (addClaim "2024-03-02T09:00:00.000Z" "a1" "Ana" imported_2_53)
      = Normal (Some claim) ∧
    Claim.id claim = seq_claims (seq (current imported_2_53)) ∧
    Claim.id claim ≠ seq_claims (seq (current imported_2_53)) + 1.
Proof.
  split; [repeat constructor|]. split.
  - exists wallet. split; [apply list_elem_of_here | reflexivity].
  - eexists. split; [reflexivity|]. split; [reflexivity | discriminate].
Qed.

(** C4 (amended). When some item carries the given id, [addClaim] returns a
    claim whose id is the claims counter plus one as JavaScript adds Numbers,
    which is the counter plus one whenever the counter is below 2^53;
    afterwards the counter is that id, the item that the id looks up has
    status "claimed" and its lastClaimedAt is the createdAt of the returned
    claim. *)
Theorem addClaim_marks_item_claimed
    (ls : LocalStorage) (now itemId claimantName : string) :
  (∃ x, x ∈ items (current ls) ∧ Item.id x = itemId) →
  ∃ claim item',
    fst (addClaim now itemId claimantName ls) = Normal (Some claim) ∧
    Claim.id claim = Number_add1 (seq_claims (seq (current ls))) ∧
    (seq_claims (seq (current ls)) < 2 ^ 53 →
     Claim.id claim = seq_claims (seq (current ls)) + 1) ∧
    Claim.itemId claim = itemId ∧
    Claim.claimantName claim = claimantName ∧
    seq_claims (seq (current (snd (addClaim now itemId claimantName ls))))
      = Claim.id claim ∧
    fst (getItem itemId (snd (addClaim now itemId claimantName ls)))
      = Normal (Some item') ∧
    Item.status item' = "claimed" ∧
    Item.lastClaimedAt item' = Some (Claim.createdAt claim).
Proof.
  intros (x & Hx & Hid).
  destruct (Array_find_is_Some (λ x, String.eqb (Item.id x) itemId) _ x Hx)
    as [[j item] Hfind]; [by apply String.eqb_eq|].
  rewrite (addClaim_found _ _ _ _ _ _ Hfind). cbn zeta. cbn [fst snd].
  eexists _, _. split_and!; try reflexivity.
  - intros Hlt. cbn [Claim.id]. by apply Number_add1_exact.
  - rewrite getItem_current, current_Some. cbn [fst items].
    erewrite Array_find_insert; [reflexivity|exact Hfind|].
    apply Array_find_Some in Hfind as (_ & Hp & _). exact Hp.
  - reflexivity.
  - reflexivity.
Qed.

Lemma addClaim_marks_item_claimed_witness :
  ∃ claim item',
    fst (addClaim "2024-01-02T09:00:00.000Z" "a1" "Ana"
           (Some (mkStore [wallet] [] [] (mkSeq 0 4)))) = Normal (Some claim) ∧
    Claim.id claim = Number_add1 4 ∧
    (4 < 2 ^ 53 → Claim.id claim = 5) ∧
    Claim.itemId claim = "a1" ∧
    Claim.claimantName claim = "Ana" ∧
    seq_claims (seq (current (snd (addClaim "2024-01-02T09:00:00.000Z" "a1" "Ana"
           (Some (mkStore [wallet] [] [] (mkSeq 0 4))))))) = Claim.id claim ∧
    fst (getItem "a1" (snd (addClaim "2024-01-02T09:00:00.000Z" "a1" "Ana"
           (Some (mkStore [wallet] [] [] (mkSeq 0 4)))))) = Normal (Some item') ∧
    Item.status item' = "claimed" ∧
    Item.lastClaimedAt item' = Some (Claim.createdAt claim).
Proof.
  apply (addClaim_marks_item_claimed (Some (mkStore [wallet] [] [] (mkSeq 0 4)))
           "2024-01-02T09:00:00.000Z" "a1" "Ana").
  exists wallet. split; [apply list_elem_of_here | reflexivity].
Defined.

(** ** [verifyReportMoveToLost] *)

Lemma verifyReportMoveToLost_found ls reportId i report j item :
  Array_find (λ x, FoundReport.id x =? reportId) (found_reports (current ls))
    = Some (i, report) →
  Array_find (λ x, String.eqb (Item.id x) (FoundReport.itemId report))
    (items (current ls)) = Some (j, item) →
  verifyReportMoveToLost reportId ls =
  (Normal true,
   Some (mkStore (<[j := moved_to_lost report item]> (items (current ls)))
           (<[i := FoundReport.set_status "verified" report]>
              (found_reports (current ls)))
           (claims (current ls)) (seq (current ls)))).
Proof.
  intros H1 H2. unfold verifyReportMoveToLost. by rewrite bind_load, H1, H2.
Qed.

Lemma verifyReportMoveToLost_true ls reportId ls' :
  verifyReportMoveToLost reportId ls = (Normal true, ls') →
  ∃ i report j item,
    Array_find (λ x, FoundReport.id x =? reportId) (found_reports (current ls))
      = Some (i, report) ∧
    Array_find (λ x, String.eqb (Item.id x) (FoundReport.itemId report))
      (items (current ls)) = Some (j, item) ∧
    ls' = Some (mkStore (<[j := moved_to_lost report item]> (items (current ls)))
                  (<[i := FoundReport.set_status "verified" report]>
                     (found_reports (current ls)))
                  (claims (current ls)) (seq (current ls))).
Proof.
  destruct (Array_find (λ x, FoundReport.id x =? reportId) (found_reports (current ls)))
    as [[i report]|] eqn:H1.
  - destruct (Array_find (λ x, String.eqb (Item.id x) (FoundReport.itemId report))
                (items (current ls))) as [[j item]|] eqn:H2.
    + rewrite (verifyReportMoveToLost_found _ _ _ _ _ _ H1 H2).
      intros [= <-]. by eexists _, _, _, _.
    + by rewrite (verifyReportMoveToLost_no_item _ _ _ _ H1 H2).
  - by rewrite (verifyReportMoveToLost_no_report _ _ H1).
Qed.

Lemma moved_to_lost_id report item :
  Item.id (moved_to_lost report item) = Item.id item.
Proof. unfold moved_to_lost. by destruct (has_photo report). Qed.

Lemma moved_to_lost_status report item :
  Item.status (moved_to_lost report item) = "lost".
Proof. unfold moved_to_lost. by destruct (has_photo report). Qed.

(** C3, as amended. When [verifyReportMoveToLost] returns true, the report
    the id looks up has status "verified" afterwards (and is otherwise as it
    was), the item that the report's itemId looks up has status "lost", and
    when the report's photoPath is a non-empty string that item's
    foundPhotoPath is this photoPath. *)
Theorem verifyReportMoveToLost_success
    (ls ls' : LocalStorage) (reportId : N) :
  verifyReportMoveToLost reportId ls = (Normal true, ls') →
  ∃ i report report' item',
    Array_find (λ x, FoundReport.id x =? reportId) (found_reports (current ls))
      = Some (i, report) ∧
    Array_find (λ x, FoundReport.id x =? reportId) (found_reports (current ls'))
      = Some (i, report') ∧
    FoundReport.status report' = "verified" ∧
    FoundReport.itemId report' = FoundReport.itemId report ∧
    FoundReport.photoPath report' = FoundReport.photoPath report ∧
    fst (getItem (FoundReport.itemId report) ls') = Normal (Some item') ∧
    Item.status item' = "lost" ∧
    (∀ p, FoundReport.photoPath report = Some p → p ≠ "" →
          Item.foundPhotoPath item' = Some p).
Proof.
  intros (i & report & j & item & H1 & H2 & ->)%verifyReportMoveToLost_true.
  exists i, report, (FoundReport.set_status "verified" report),
    (moved_to_lost report item).
  split_and!.
  - done.
  - rewrite current_Some. cbn [found_reports].
    eapply Array_find_insert; [exact H1|].
    apply Array_find_Some in H1 as (_ & Hp & _). exact Hp.
  - done.
  - done.
  - done.
  - rewrite getItem_current, current_Some. cbn [fst items].
    erewrite Array_find_insert; [reflexivity|exact H2|].
    rewrite moved_to_lost_id.
    apply Array_find_Some in H2 as (_ & Hp & _). exact Hp.
  - apply moved_to_lost_status.
  - intros p Hp Hne. unfold moved_to_lost, has_photo. rewrite Hp.
    by destruct (String.eqb_spec p "").
Qed.

Lemma verifyReportMoveToLost_success_witness :
  ∃ i report report' item',
    Array_find (λ x, FoundReport.id x =? 1)
      (found_reports (current (Some
         (mkStore [wallet] [wallet_report (Some "p.jpg")] [] (mkSeq 1 0)))))
      = Some (i, report) ∧
    Array_find (λ x, FoundReport.id x =? 1)
      (found_reports (current (snd (verifyReportMoveToLost 1 (Some
         (mkStore [wallet] [wallet_report (Some "p.jpg")] [] (mkSeq 1 0)))))))
      = Some (i, report') ∧
    FoundReport.status report' = "verified" ∧
    FoundReport.itemId report' = FoundReport.itemId report ∧
    FoundReport.photoPath report' = FoundReport.photoPath report ∧
    fst (getItem (FoundReport.itemId report)
           (snd (verifyReportMoveToLost 1 (Some
              (mkStore [wallet] [wallet_report (Some "p.jpg")] [] (mkSeq 1 0))))))
      = Normal (Some item') ∧
    Item.status item' = "lost" ∧
    (∀ p, FoundReport.photoPath report = Some p → p ≠ "" →
          Item.foundPhotoPath item' = Some p).
Proof.
  apply (verifyReportMoveToLost_success
           (Some (mkStore [wallet] [wallet_report (Some "p.jpg")] [] (mkSeq 1 0)))
           _ 1).
  reflexivity.
Defined.

(** C3 as stated fails on a report whose photoPath is the empty string: it
    is not null, yet [if (report.photoPath)] skips the copy, and the item's
    foundPhotoPath stays absent. *)
Lemma verifyReportMoveToLost_empty_photo_not_copied :
  let ls := Some (mkStore [wallet] [wallet_report (Some "")] [] (mkSeq 1 0)) in
  ∃ i report item',
    verifyReportMoveToLost 1 ls
      = (Normal true, snd (verifyReportMoveToLost 1 ls)) ∧
    Array_find (λ x, FoundReport.id x =? 1) (found_reports (current ls))
      = Some (i, report) ∧
    FoundReport.photoPath report ≠ None ∧
    fst (getItem (FoundReport.itemId report) (snd (verifyReportMoveToLost 1 ls)))
      = Normal (Some item') ∧
    Item.foundPhotoPath item' ≠ FoundReport.photoPath report.
Proof.
  exists O, (wallet_report (Some "")), (Item.set_status "lost" wallet).
  split_and!; try reflexivity; discriminate.
Qed.

(** ** [importMerge] *)

Section MergeArray.
Context {K A : Type} `{Countable K} (uniqueBy : A → K).

Lemma new_Map_lookup (entries : list (K * A)) (m : gmap K A) k :
  is_Some (foldl (λ m e, <[e.1 := e.2]> m) m entries !! k) ↔
  is_Some (m !! k) ∨ k ∈ entries.*1.
Proof.
  revert m. induction entries as [|[k' v] entries IH]; intros m; simpl.
  - rewrite elem_of_nil. tauto.
  - rewrite IH, elem_of_cons, lookup_insert_is_Some. simpl.
    destruct (decide (k' = k)) as [->|Hne]; [tauto|].
    split; [intros [[?|[_ ?]]|?]|intros [?|[?|?]]]; auto; congruence.
Qed.

Lemma Map_has_existing (arr : list A) k :
  Map_has (new_Map ((λ x, (uniqueBy x, x)) <$> arr)) k = true ↔
  k ∈ uniqueBy <$> arr.
Proof.
  unfold Map_has, new_Map. rewrite bool_decide_eq_true, new_Map_lookup.
  rewrite lookup_empty, is_Some_alt.
  replace (((λ x, (uniqueBy x, x)) <$> arr).*1) with (uniqueBy <$> arr).
  - tauto.
  - by rewrite <- list_fmap_compose.
Qed.

Lemma push_missing_Some (existing : gmap K A) incoming arr :
  Forall is_Some incoming →
  push_missing uniqueBy existing incoming arr =
  Normal (arr ++ List.filter (λ x, negb (Map_has existing (uniqueBy x)))
                   (omap id incoming)).
Proof.
  intros Hall. revert arr.
  induction Hall as [|[x|] incoming Hx Hall IH]; intros arr; simpl.
  - by rewrite app_nil_r.
  - rewrite IH. destruct (Map_has existing (uniqueBy x)); simpl; [done|].
    by rewrite <- app_assoc.
  - by destruct Hx.
Qed.

Lemma mergeArray_valid arr c :
  valid_coll c → mergeArray uniqueBy arr c = Normal (arr ++ missing uniqueBy arr c).
Proof.
  intros Hc. unfold mergeArray, missing.
  assert (Hext : ∀ l : list A,
    List.filter (λ x, negb (Map_has
      (new_Map ((λ x, (uniqueBy x, x)) <$> arr)) (uniqueBy x))) l =
    List.filter (λ x, negb (bool_decide (uniqueBy x ∈ uniqueBy <$> arr))) l).
  { intros l. apply List.filter_ext. intros x. f_equal.
    apply eq_true_iff_eq. by rewrite Map_has_existing, bool_decide_eq_true. }
  destruct c as [|l|]; simpl in *.
  - by rewrite app_nil_r.
  - by rewrite push_missing_Some, Hext.
  - done.
Qed.

Lemma elem_of_missing arr c x :
  x ∈ missing uniqueBy arr c ↔ x ∈ records c ∧ uniqueBy x ∉ uniqueBy <$> arr.
Proof.
  unfold missing. rewrite list_elem_of_In, List.filter_In, <- list_elem_of_In.
  by rewrite negb_true_iff, bool_decide_eq_false.
Qed.

(** Nothing is pushed when every incoming key is already taken. *)
Lemma missing_nil arr c :
  (∀ x, x ∈ records c → uniqueBy x ∈ uniqueBy <$> arr) → missing uniqueBy arr c = [].
Proof.
  intros Hall. destruct (missing uniqueBy arr c) as [|x l] eqn:E; [done|].
  assert (Hx : x ∈ missing uniqueBy arr c) by (rewrite E; apply list_elem_of_here).
  apply elem_of_missing in Hx as [Hx Hn]. destruct Hn. by apply Hall.
Qed.
End MergeArray.

Lemma importMerge_rejected data ls :
  ToBoolean data = false ∨ typeof data ≠ "object" →
  importMerge data ls = (Normal false, ls).
Proof.
  intros Hbad. unfold importMerge.
  destruct Hbad as [->|Hty]; [done|].
  apply String.eqb_neq in Hty. rewrite Hty. by rewrite orb_true_r.
Qed.

Lemma importMerge_merged data ls :
  ToBoolean data = true → typeof data = "object" →
  valid_coll (data_items data) → valid_coll (data_found_reports data) →
  valid_coll (data_claims data) →
  importMerge data ls = (Normal true, Some (merged (current ls) data)).
Proof.
  intros Hb Hty Hi Hf Hc. unfold importMerge.
  rewrite Hb, Hty, String.eqb_refl. cbn [negb orb].
  rewrite bind_load.
  unfold bind at 1. rewrite (mergeArray_valid _ _ _ Hi). cbn [lift ret].
  unfold bind at 1. rewrite (mergeArray_valid _ _ _ Hf). cbn [lift ret].
  unfold bind at 1. rewrite (mergeArray_valid _ _ _ Hc). cbn [lift ret].
  reflexivity.
Qed.

Lemma importMerge_valid data ls :
  structurally_valid data →
  importMerge data ls = (Normal true, Some (merged (current ls) data)).
Proof.
  destruct data as [| | | | | |o]; try done.
  intros (Hi & Hf & Hc). by apply importMerge_merged.
Qed.

Lemma importMerge_array elems ls :
  importMerge (JsArray elems) ls =
  (Normal true, Some (merged (current ls) (JsArray elems))).
Proof. by apply importMerge_merged. Qed.

Lemma Math_max_ge (args : list N) x : x ∈ args → x ≤ Math_max args.
Proof.
  unfold Math_max. induction 1 as [x l|x y l _ IH]; simpl; lia.
Qed.

Lemma Math_max_elem (args : list N) : Math_max args = 0 ∨ Math_max args ∈ args.
Proof.
  unfold Math_max. induction args as [|x l IH]; simpl; [by left|].
  destruct (N.max_spec x (foldr N.max 0 l)) as [[_ ->]|[_ ->]].
  - destruct IH as [->|IH]; [by left|]. right. by apply list_elem_of_further.
  - right. apply list_elem_of_here.
Qed.

Lemma Math_max_greatest (counter : N) (ids : list N) :
  greatest (Math_max (or0 counter :: (ids ++ [0]))) (counter :: ids).
Proof.
  rewrite or0_id. split.
  - destruct (Math_max_elem (counter :: (ids ++ [0]))) as [E|E].
    + assert (counter ≤ Math_max (counter :: (ids ++ [0])))
        by apply Math_max_ge, list_elem_of_here.
      replace (Math_max (counter :: (ids ++ [0]))) with counter by lia.
      apply list_elem_of_here.
    + apply elem_of_cons in E as [E|E]; [rewrite E; apply list_elem_of_here|].
      apply elem_of_app in E as [E|E]; [by apply list_elem_of_further|].
      apply list_elem_of_singleton in E.
      assert (counter ≤ Math_max (counter :: (ids ++ [0])))
        by apply Math_max_ge, list_elem_of_here.
      replace (Math_max (counter :: (ids ++ [0]))) with counter by lia.
      apply list_elem_of_here.
  - intros x Hx. apply Math_max_ge.
    apply elem_of_cons in Hx as [->|Hx]; [apply list_elem_of_here|].
    apply list_elem_of_further, elem_of_app. by left.
Qed.

Lemma addFoundReport_run now f ls :
  addFoundReport now f ls =
  let db := current ls in
  let report :=
    FoundReport.mk (Number_add1 (seq_found_reports (seq db))) (f_itemId f)
      (f_finderName f) (f_location f) (or_null (f_photo f)) "pending" now in
  (Normal report,
   Some (mkStore (items db) (found_reports db ++ [report]) (claims db)
           (mkSeq (Number_add1 (seq_found_reports (seq db))) (seq_claims (seq db))))).
Proof. unfold addFoundReport. rewrite bind_load. simpl. by rewrite or0_id. Qed.

(** C6. After [importMerge] of a structurally valid snapshot each sequence
    counter is the greatest of its previous value and the ids present in
    its collection after the merge; and when the merged found reports hold
    a record with id 57, the next [addFoundReport] returns a report whose
    id is at least 58. *)
Theorem importMerge_recomputes_sequences (ls : LocalStorage) (data : JsValue) :
  structurally_valid data →
  fst (importMerge data ls) = Normal true ∧
  greatest
    (seq_found_reports (seq (current (snd (importMerge data ls)))))
    (seq_found_reports (seq (current ls))
       :: (FoundReport.id <$> found_reports (current (snd (importMerge data ls))))) ∧
  greatest
    (seq_claims (seq (current (snd (importMerge data ls)))))
    (seq_claims (seq (current ls))
       :: (Claim.id <$> claims (current (snd (importMerge data ls))))) ∧
  ((∃ r, r ∈ found_reports (current (snd (importMerge data ls))) ∧
         FoundReport.id r = 57) →
   ∀ now f, ∃ report,
     fst (addFoundReport now f (snd (importMerge data ls))) = Normal report ∧
     58 ≤ FoundReport.id report).
Proof.
  intros Hv. rewrite (importMerge_valid _ _ Hv). cbn [fst snd current].
  split_and!.
  - done.
  - apply Math_max_greatest.
  - apply Math_max_greatest.
  - intros (r & Hr & Hid) now f. rewrite addFoundReport_run. cbn zeta.
    eexists. split; [reflexivity|]. cbn [FoundReport.id current].
    pose proof (Math_max_greatest (seq_found_reports (seq (current ls)))
      (FoundReport.id <$> found_reports (merged (current ls) data))) as [_ Hge].
    specialize (Hge 57). cbn [merged seq seq_found_reports found_reports] in *.
    assert (57 ≤ Math_max (or0 (seq_found_reports (seq (current ls)))
      :: ((FoundReport.id <$> found_reports (current ls)
            ++ missing FoundReport.id (found_reports (current ls))
                 (data_found_reports data)) ++ [0]))) as H57.
    2: { pose proof (Number_add1_above _ _ H57). lia. }
    apply Hge. apply list_elem_of_further. rewrite <- Hid.
    by apply list_elem_of_fmap_2.
Qed.

Lemma importMerge_recomputes_sequences_witness :
  fst (importMerge snapshot57 None) = Normal true ∧
  greatest
    (seq_found_reports (seq (current (snd (importMerge snapshot57 None)))))
    (seq_found_reports (seq (current None))
       :: (FoundReport.id <$> found_reports (current (snd (importMerge snapshot57 None))))) ∧
  greatest
    (seq_claims (seq (current (snd (importMerge snapshot57 None)))))
    (seq_claims (seq (current None))
       :: (Claim.id <$> claims (current (snd (importMerge snapshot57 None))))) ∧
  ((∃ r, r ∈ found_reports (current (snd (importMerge snapshot57 None))) ∧
         FoundReport.id r = 57) →
   ∀ now f, ∃ report,
     fst (addFoundReport now f (snd (importMerge snapshot57 None))) = Normal report ∧
     58 ≤ FoundReport.id report).
Proof.
  apply (importMerge_recomputes_sequences None snapshot57).
  simpl. split_and!; [exact I | | constructor].
  constructor; [by eexists | constructor].
Defined.

(** C7. [importMerge] of a structurally valid snapshot only appends: every
    item, found report and claim of the store keeps its place and is
    unchanged, and every record appended comes from the snapshot and has an
    id that no record of that collection had before the merge. *)
Theorem importMerge_keeps_existing_records (ls : LocalStorage) (data : JsValue) :
  structurally_valid data →
  ∃ new_items new_reports new_claims,
    items (current (snd (importMerge data ls)))
      = items (current ls) ++ new_items ∧
    found_reports (current (snd (importMerge data ls)))
      = found_reports (current ls) ++ new_reports ∧
    claims (current (snd (importMerge data ls)))
      = claims (current ls) ++ new_claims ∧
    (∀ i x, items (current ls) !! i = Some x →
            items (current (snd (importMerge data ls))) !! i = Some x) ∧
    (∀ i x, found_reports (current ls) !! i = Some x →
            found_reports (current (snd (importMerge data ls))) !! i = Some x) ∧
    (∀ i x, claims (current ls) !! i = Some x →
            claims (current (snd (importMerge data ls))) !! i = Some x) ∧
    (∀ x, x ∈ new_items →
          x ∈ records (data_items data) ∧
          Item.id x ∉ Item.id <$> items (current ls)) ∧
    (∀ x, x ∈ new_reports →
          x ∈ records (data_found_reports data) ∧
          FoundReport.id x ∉ FoundReport.id <$> found_reports (current ls)) ∧
    (∀ x, x ∈ new_claims →
          x ∈ records (data_claims data) ∧
          Claim.id x ∉ Claim.id <$> claims (current ls)).
Proof.
  intros Hv. rewrite (importMerge_valid _ _ Hv).
  cbn [snd current merged items found_reports claims].
  eexists _, _, _. split_and!; try reflexivity.
  - intros i x Hx. by apply lookup_app_l_Some.
  - intros i x Hx. by apply lookup_app_l_Some.
  - intros i x Hx. by apply lookup_app_l_Some.
  - intros x. apply elem_of_missing.
  - intros x. apply elem_of_missing.
  - intros x. apply elem_of_missing.
Qed.

Lemma importMerge_keeps_existing_records_witness :
  ∃ new_items new_reports new_claims,
    items (current (snd (importMerge snapshot_items (Some (mkStore [wallet] [] [] (mkSeq 0 0))))))
      = items (current (Some (mkStore [wallet] [] [] (mkSeq 0 0)))) ++ new_items ∧
    found_reports (current (snd (importMerge snapshot_items (Some (mkStore [wallet] [] [] (mkSeq 0 0))))))
      = found_reports (current (Some (mkStore [wallet] [] [] (mkSeq 0 0)))) ++ new_reports ∧
    claims (current (snd (importMerge snapshot_items (Some (mkStore [wallet] [] [] (mkSeq 0 0))))))
      = claims (current (Some (mkStore [wallet] [] [] (mkSeq 0 0)))) ++ new_claims ∧
    (∀ i x, items (current (Some (mkStore [wallet] [] [] (mkSeq 0 0)))) !! i = Some x →
            items (current (snd (importMerge snapshot_items
              (Some (mkStore [wallet] [] [] (mkSeq 0 0)))))) !! i = Some x) ∧
    (∀ i x, found_reports (current (Some (mkStore [wallet] [] [] (mkSeq 0 0)))) !! i = Some x →
            found_reports (current (snd (importMerge snapshot_items
              (Some (mkStore [wallet] [] [] (mkSeq 0 0)))))) !! i = Some x) ∧
    (∀ i x, claims (current (Some (mkStore [wallet] [] [] (mkSeq 0 0)))) !! i = Some x →
            claims (current (snd (importMerge snapshot_items
              (Some (mkStore [wallet] [] [] (mkSeq 0 0)))))) !! i = Some x) ∧
    (∀ x, x ∈ new_items →
          x ∈ records (data_items snapshot_items) ∧
          Item.id x ∉ Item.id <$> items (current (Some (mkStore [wallet] [] [] (mkSeq 0 0))))) ∧
    (∀ x, x ∈ new_reports →
          x ∈ records (data_found_reports snapshot_items) ∧
          FoundReport.id x ∉ FoundReport.id <$>
            found_reports (current (Some (mkStore [wallet] [] [] (mkSeq 0 0))))) ∧
    (∀ x, x ∈ new_claims →
          x ∈ records (data_claims snapshot_items) ∧
          Claim.id x ∉ Claim.id <$> claims (current (Some (mkStore [wallet] [] [] (mkSeq 0 0))))).
Proof.
  apply (importMerge_keeps_existing_records
           (Some (mkStore [wallet] [] [] (mkSeq 0 0))) snapshot_items).
  simpl. split_and!; [|exact I|exact I].
  constructor; [by eexists|]. constructor; [by eexists|constructor].
Defined.

(** C8 as stated fails on an array: it is not a record, yet it passes
    [typeof data !== "object"], none of its collections is defined, and
    [importMerge] returns true. *)
Lemma importMerge_accepts_array :
  ¬ is_record (JsArray []) ∧
  importMerge (JsArray []) None
    = (Normal true, Some (mkStore [] [] [] (mkSeq 0 0))).
Proof. split; [intros [] | reflexivity]. Qed.

(** C8, as amended. [importMerge] returns false, without throwing and
    without touching the slot, for every payload that is falsy or whose
    typeof is not "object": undefined, null, booleans, numbers and strings.
    It returns true, without throwing, for every array (nothing is merged)
    and for every structurally valid snapshot, also when no record is
    merged. *)
Theorem importMerge_result (ls : LocalStorage) (data : JsValue) :
  (¬ is_record data → (∀ elems, data ≠ JsArray elems) →
   importMerge data ls = (Normal false, ls)) ∧
  (∀ elems, data = JsArray elems →
   fst (importMerge data ls) = Normal true ∧
   items (current (snd (importMerge data ls))) = items (current ls) ∧
   found_reports (current (snd (importMerge data ls)))
     = found_reports (current ls) ∧
   claims (current (snd (importMerge data ls))) = claims (current ls)) ∧
  (structurally_valid data → fst (importMerge data ls) = Normal true).
Proof.
  split_and!.
  - intros Hrec Harr. apply importMerge_rejected.
    destruct data as [| |b|n|s|elems|o]; simpl.
    + by left.
    + by left.
    + by right.
    + by right.
    + by right.
    + by destruct (Harr elems).
    + by destruct Hrec.
  - intros elems ->. rewrite importMerge_array.
    cbn [fst snd current merged items found_reports claims data_items
         data_found_reports data_claims missing records List.filter].
    by rewrite !app_nil_r.
  - intros Hv. by rewrite (importMerge_valid _ _ Hv).
Qed.

Lemma importMerge_result_witness :
  importMerge (JsString "{}") None = (Normal false, None) ∧
  fst (importMerge (JsArray [JsNumber 1]) None) = Normal true ∧
  fst (importMerge (JsObject (mkSnapshot Absent (Elems []) Absent)) None)
    = Normal true.
Proof.
  split_and!.
  - apply (importMerge_result None (JsString "{}")); [intros [] | discriminate].
  - by apply (importMerge_result None (JsArray [JsNumber 1])) with [JsNumber 1].
  - apply (importMerge_result None (JsObject (mkSnapshot Absent (Elems []) Absent))).
    simpl. split_and!; [exact I | constructor | exact I].
Defined.

(** A collection that is not an array, or a null element in one, makes
    [importMerge] throw; nothing has been saved at that point. *)
Lemma importMerge_throws :
  importMerge (JsObject (mkSnapshot (Elems [Some wallet2]) NotIterable Absent))
    (Some (mkStore [wallet] [] [] (mkSeq 0 0)))
    = (Throw, Some (mkStore [wallet] [] [] (mkSeq 0 0))) ∧
  importMerge (JsObject (mkSnapshot (Elems [Some wallet2; None]) Absent Absent))
    (Some (mkStore [wallet] [] [] (mkSeq 0 0)))
    = (Throw, Some (mkStore [wallet] [] [] (mkSeq 0 0))).
Proof. split; reflexivity. Qed.

(** ** What each call leaves in the slot *)

Lemma addItem_run uuid now f ls :
  addItem uuid now f ls =
  let db := current ls in
  let item :=
    Item.mk uuid (f_itemName f) (f_studentId f) (f_ownerName f)
      (or_else (f_category f) "other")
      (or_null (f_strand f)) (or_null (f_email f)) (or_null (f_contact f))
      (or_null (f_photoDataUrl f)) "registered" now None None in
  (Normal item,
   Some (mkStore (items db ++ [item]) (found_reports db) (claims db) (seq db))).
Proof. unfold addItem. by rewrite bind_load. Qed.

Lemma verifyReportMoveToLost_cases ls reportId :
  verifyReportMoveToLost reportId ls = (Normal false, Some (current ls)) ∨
  ∃ i report j item,
    Array_find (λ x, FoundReport.id x =? reportId) (found_reports (current ls))
      = Some (i, report) ∧
    Array_find (λ x, String.eqb (Item.id x) (FoundReport.itemId report))
      (items (current ls)) = Some (j, item) ∧
    verifyReportMoveToLost reportId ls =
    (Normal true,
     Some (mkStore (<[j := moved_to_lost report item]> (items (current ls)))
             (<[i := FoundReport.set_status "verified" report]>
                (found_reports (current ls)))
             (claims (current ls)) (seq (current ls)))).
Proof.
  destruct (Array_find (λ x, FoundReport.id x =? reportId) (found_reports (current ls)))
    as [[i report]|] eqn:H1.
  - destruct (Array_find (λ x, String.eqb (Item.id x) (FoundReport.itemId report))
                (items (current ls))) as [[j item]|] eqn:H2.
    + right. exists i, report, j, item. split_and!; [done..|].
      by apply verifyReportMoveToLost_found.
    + left. by eapply verifyReportMoveToLost_no_item.
  - left. by apply verifyReportMoveToLost_no_report.
Qed.

Lemma addClaim_cases ls now itemId claimantName :
  addClaim now itemId claimantName ls = (Normal None, Some (current ls)) ∨
  ∃ j item,
    Array_find (λ x, String.eqb (Item.id x) itemId) (items (current ls))
      = Some (j, item) ∧
    addClaim now itemId claimantName ls =
    (Normal (Some (Claim.mk (Number_add1 (seq_claims (seq (current ls)))) itemId
                     claimantName now)),
     Some (mkStore
             (<[j := Item.set_lastClaimedAt (Some now)
                       (Item.set_status "claimed" item)]> (items (current ls)))
             (found_reports (current ls))
             (claims (current ls)
                ++ [Claim.mk (Number_add1 (seq_claims (seq (current ls)))) itemId
                      claimantName now])
             (mkSeq (seq_found_reports (seq (current ls)))
                (Number_add1 (seq_claims (seq (current ls))))))).
Proof.
  destruct (Array_find (λ x, String.eqb (Item.id x) itemId) (items (current ls)))
    as [[j item]|] eqn:H1.
  - right. exists j, item. split; [done|]. by apply addClaim_found.
  - left. by apply addClaim_no_item.
Qed.

Lemma push_missing_null {K A} `{Countable K} (uniqueBy : A → K)
    (existing : gmap K A) incoming arr :
  ¬ Forall is_Some incoming →
  push_missing uniqueBy existing incoming arr = Throw.
Proof.
  revert arr. induction incoming as [|[x|] incoming IH]; intros arr Hn; simpl.
  - destruct Hn. constructor.
  - apply IH. intros Hall. apply Hn. constructor; [by eexists|done].
  - done.
Qed.

Lemma mergeArray_cases {K A} `{Countable K} (uniqueBy : A → K) arr c :
  (valid_coll c ∧ mergeArray uniqueBy arr c = Normal (arr ++ missing uniqueBy arr c)) ∨
  mergeArray uniqueBy arr c = Throw.
Proof.
  destruct c as [|l|].
  - left. split; [exact I|]. by apply mergeArray_valid.
  - destruct (decide (Forall is_Some l)) as [Hall|Hn].
    + left. split; [done|]. by apply mergeArray_valid.
    + right. unfold mergeArray. by apply push_missing_null.
  - by right.
Qed.

Lemma importMerge_cases data ls :
  importMerge data ls = (Normal false, ls) ∨
  importMerge data ls = (Throw, Some (current ls)) ∨
  importMerge data ls = (Normal true, Some (merged (current ls) data)).
Proof.
  destruct (ToBoolean data) eqn:Hb;
    [|left; apply importMerge_rejected; by left].
  destruct (String.eqb_spec (typeof data) "object") as [Hty|Hty];
    [|left; apply importMerge_rejected; by right].
  right.
  destruct (mergeArray_cases Item.id (items (current ls)) (data_items data))
    as [[Hi Hmi]|Hmi].
  2: { left. unfold importMerge.
       rewrite Hb, Hty, String.eqb_refl. cbn [negb orb]. rewrite bind_load.
       unfold bind at 1. by rewrite Hmi. }
  destruct (mergeArray_cases FoundReport.id (found_reports (current ls))
              (data_found_reports data)) as [[Hf Hmf]|Hmf].
  2: { left. unfold importMerge.
       rewrite Hb, Hty, String.eqb_refl. cbn [negb orb]. rewrite bind_load.
       unfold bind at 1. rewrite Hmi. cbn [lift ret].
       unfold bind at 1. by rewrite Hmf. }
  destruct (mergeArray_cases Claim.id (claims (current ls)) (data_claims data))
    as [[Hc Hmc]|Hmc].
  2: { left. unfold importMerge.
       rewrite Hb, Hty, String.eqb_refl. cbn [negb orb]. rewrite bind_load.
       unfold bind at 1. rewrite Hmi. cbn [lift ret].
       unfold bind at 1. rewrite Hmf. cbn [lift ret].
       unfold bind at 1. by rewrite Hmc. }
  right. by apply importMerge_merged.
Qed.

(** ** The counters cover the ids *)

Lemma exec_seq_covers op ls :
  seq_covers (current ls) → seq_covers (current (exec op ls)).
Proof.
  intros [Hf Hc]. destruct op as [uuid now f|now f|rid|now itemId name|data];
    cbn [exec].
  - rewrite addItem_run. by split.
  - rewrite addFoundReport_run. cbn zeta. cbn [snd current].
    split; cbn [found_reports claims seq seq_found_reports seq_claims]; [|done].
    intros n. rewrite fmap_app, elem_of_app.
    pose proof (Number_add1_ge (seq_found_reports (seq (current ls)))).
    intros [Hn|Hn]; [specialize (Hf n Hn); lia|].
    apply list_elem_of_fmap in Hn as (r & -> & ->%list_elem_of_singleton).
    cbn. lia.
  - destruct (verifyReportMoveToLost_cases ls rid)
      as [->|(i & report & j & item & H1 & _ & ->)]; [by split|].
    cbn [snd current].
    split; cbn [found_reports claims seq seq_found_reports seq_claims]; [|done].
    rewrite list_fmap_insert, list_insert_id; [done|].
    apply Array_find_Some in H1 as (Hi & _). by rewrite list_lookup_fmap, Hi.
  - destruct (addClaim_cases ls now itemId name) as [->|(j & item & _ & ->)];
      [by split|].
    cbn [snd current].
    split; cbn [found_reports claims seq seq_found_reports seq_claims]; [done|].
    intros n. rewrite fmap_app, elem_of_app.
    pose proof (Number_add1_ge (seq_claims (seq (current ls)))).
    intros [Hn|Hn]; [specialize (Hc n Hn); lia|].
    apply list_elem_of_fmap in Hn as (r & -> & ->%list_elem_of_singleton).
    cbn. lia.
  - destruct (importMerge_cases data ls) as [-> | [-> | ->]];
      [by split|by split|].
    cbn [snd current merged].
    split; cbn [found_reports claims seq seq_found_reports seq_claims];
      intros n Hn; apply Math_max_ge, list_elem_of_further;
      apply elem_of_app; by left.
Qed.

Lemma reachable_seq_covers ls : reachable ls → seq_covers (current ls).
Proof.
  induction 1 as [|ls op _ IH].
  - split; intros n Hn; by apply elem_of_nil in Hn.
  - by apply exec_seq_covers.
Qed.

(** C10, as the specification words it, fails in its second half: after a
    report and a claim with id 2^53 have been imported both counters are
    2^53, which is its own successor among the Numbers, so [addFoundReport]
    issues the id of the imported report again and [addClaim] the id of the
    imported claim. *)
Lemma issued_id_repeats_imported_id :
  reachable imported_2_53 ∧
  (∃ report r,
     fst (addFoundReport "2024-03-02T09:00:00.000Z"
            (mkReportFields "a1" "Cy" "Canteen" None) imported_2_53)
       = Normal report ∧
     r ∈ found_reports (current imported_2_53) ∧
     FoundReport.id r = FoundReport.id report) ∧
  (∃ claim c,
     fst (addClaim "2024-03-02T09:00:00.000Z" "a1" "Ana" imported_2_53)
       = Normal (Some claim) ∧
     c ∈ claims (current imported_2_53) ∧
     Claim.id c = Claim.id claim).
Proof.
  split; [repeat constructor|]. split.
  - exists (FoundReport.mk (2 ^ 53) "a1" "Cy" "Canteen" None "pending"
              "2024-03-02T09:00:00.000Z"), report_2_53.
    split; [reflexivity|]. split; [apply list_elem_of_here | reflexivity].
  - exists (Claim.mk (2 ^ 53) "a1" "Ana" "2024-03-02T09:00:00.000Z"), claim_2_53.
    split; [reflexivity|]. split; [apply list_elem_of_here | reflexivity].
Qed.

(** C10 (amended). In every slot reachable from a fresh browser,
    seq.found_reports is at least the id of every found report and
    seq.claims at least the id of every claim, imported ones included. The
    id that [addFoundReport] or [addClaim] issues next is the counter plus
    one as JavaScript adds Numbers; it is the id of no record of the
    collection whose id is below 2^53, and while the counter is below 2^53
    it is the counter plus one and the id of no record of the collection at
    all. *)
Theorem sequence_counters_cover_ids (ls : LocalStorage) :
  reachable ls →
  (∀ r, r ∈ found_reports (current ls) →
        FoundReport.id r ≤ seq_found_reports (seq (current ls))) ∧
  (∀ c, c ∈ claims (current ls) →
        Claim.id c ≤ seq_claims (seq (current ls))) ∧
  (∀ now f, ∃ report,
      fst (addFoundReport now f ls) = Normal report ∧
      FoundReport.id report = Number_add1 (seq_found_reports (seq (current ls))) ∧
      (∀ r, r ∈ found_reports (current ls) → FoundReport.id r < 2 ^ 53 →
            FoundReport.id r ≠ FoundReport.id report) ∧
      (seq_found_reports (seq (current ls)) < 2 ^ 53 →
       FoundReport.id report = seq_found_reports (seq (current ls)) + 1 ∧
       ∀ r, r ∈ found_reports (current ls) →
            FoundReport.id r ≠ FoundReport.id report)) ∧
  (∀ now itemId claimantName claim,
      fst (addClaim now itemId claimantName ls) = Normal (Some claim) →
      Claim.id claim = Number_add1 (seq_claims (seq (current ls))) ∧
      (∀ c, c ∈ claims (current ls) → Claim.id c < 2 ^ 53 →
            Claim.id c ≠ Claim.id claim) ∧
      (seq_claims (seq (current ls)) < 2 ^ 53 →
       Claim.id claim = seq_claims (seq (current ls)) + 1 ∧
       ∀ c, c ∈ claims (current ls) → Claim.id c ≠ Claim.id claim)).
Proof.
  intros [Hf Hc]%reachable_seq_covers.
  assert (Hf' : ∀ r, r ∈ found_reports (current ls) →
                     FoundReport.id r ≤ seq_found_reports (seq (current ls))).
  { intros r Hr. by apply Hf, list_elem_of_fmap_2. }
  assert (Hc' : ∀ c, c ∈ claims (current ls) →
                     Claim.id c ≤ seq_claims (seq (current ls))).
  { intros c Hin. by apply Hc, list_elem_of_fmap_2. }
  split_and!; [done..| |].
  - intros now f. rewrite addFoundReport_run. cbn zeta. cbn [fst].
    eexists. split_and!; [reflexivity..| |]; cbn [FoundReport.id].
    + intros r Hr Hlt.
      pose proof (Number_add1_above _ _ (Hf' r Hr) Hlt). lia.
    + intros Hlt. split; [by apply Number_add1_exact|].
      intros r Hr. specialize (Hf' r Hr).
      rewrite Number_add1_exact by exact Hlt. lia.
  - intros now itemId name claim.
    destruct (addClaim_cases ls now itemId name) as [->|(j & item & _ & ->)];
      [done|].
    cbn [fst]. intros [= <-]. cbn [Claim.id]. split_and!; [done| |].
    + intros c Hin Hlt.
      pose proof (Number_add1_above _ _ (Hc' c Hin) Hlt). lia.
    + intros Hlt. split; [by apply Number_add1_exact|].
      intros c Hin. specialize (Hc' c Hin).
      rewrite Number_add1_exact by exact Hlt. lia.
Qed.

Lemma sequence_counters_cover_ids_witness :
  reachable imported_then_reported ∧
  seq_found_reports (seq (current imported_then_reported)) = 58 ∧
  (∀ r, r ∈ found_reports (current imported_then_reported) →
        FoundReport.id r ≤ seq_found_reports (seq (current imported_then_reported))).
Proof.
  assert (Hreach : reachable imported_then_reported)
    by (do 2 constructor; constructor).
  split; [exact Hreach|]. split; [reflexivity|].
  apply (sequence_counters_cover_ids imported_then_reported Hreach).
Defined.

(** ** Export followed by import *)

Lemma records_payload {A} (l : list A) : records (Elems (Some <$> l)) = l.
Proof.
  unfold records. induction l as [|x l IH]; [done|].
  cbn. by rewrite IH.
Qed.

Lemma Math_max_covered (counter : N) (ids : list N) :
  (∀ n, n ∈ ids → n ≤ counter) →
  Math_max (or0 counter :: (ids ++ [0])) = counter.
Proof.
  intros Hcov. destruct (Math_max_greatest counter ids) as [Hin Hge].
  specialize (Hge counter (list_elem_of_here _ _)).
  apply elem_of_cons in Hin as [Hin|Hin]; [done|].
  specialize (Hcov _ Hin). lia.
Qed.

Lemma merged_own_payload db :
  seq_covers db → merged db (as_payload db) = db.
Proof.
  intros [Hf Hc]. unfold merged.
  cbn [as_payload data_items data_found_reports data_claims snap_items
       snap_found_reports snap_claims].
  rewrite !missing_nil.
  - rewrite !app_nil_r, !Math_max_covered by done.
    by destruct db as [? ? ? []].
  - intros x. rewrite records_payload. apply list_elem_of_fmap_2.
  - intros x. rewrite records_payload. apply list_elem_of_fmap_2.
  - intros x. rewrite records_payload. apply list_elem_of_fmap_2.
Qed.

Lemma as_payload_valid db : structurally_valid (as_payload db).
Proof.
  assert (Hall : ∀ A (l : list A), Forall is_Some (Some <$> l)).
  { intros A l. apply Forall_fmap, Forall_true. by eexists. }
  cbn. split_and!; apply Hall.
Qed.

(** C2. In every slot reachable through the API, importing what
    [exportAll] has just returned returns true and leaves the store as it
    was: the same items, found reports and claims, no record more, and both
    sequence counters at their values. *)
Theorem importMerge_exportAll_is_noop (ls : LocalStorage) :
  reachable ls →
  ∃ data ls1 ls2,
    exportAll ls = (Normal data, ls1) ∧
    importMerge (as_payload data) ls1 = (Normal true, ls2) ∧
    items (current ls2) = items (current ls) ∧
    found_reports (current ls2) = found_reports (current ls) ∧
    claims (current ls2) = claims (current ls) ∧
    seq_found_reports (seq (current ls2)) = seq_found_reports (seq (current ls)) ∧
    seq_claims (seq (current ls2)) = seq_claims (seq (current ls)).
Proof.
  intros Hcov%reachable_seq_covers.
  exists (current ls), (Some (current ls)), (Some (current ls)).
  split; [apply load_current|].
  rewrite (importMerge_valid _ _ (as_payload_valid _)), current_Some.
  by rewrite merged_own_payload.
Qed.

Lemma importMerge_exportAll_is_noop_witness :
  ∃ data ls1 ls2,
    exportAll imported_then_reported = (Normal data, ls1) ∧
    importMerge (as_payload data) ls1 = (Normal true, ls2) ∧
    items (current ls2) = items (current imported_then_reported) ∧
    found_reports (current ls2) = found_reports (current imported_then_reported) ∧
    claims (current ls2) = claims (current imported_then_reported) ∧
    seq_found_reports (seq (current ls2))
      = seq_found_reports (seq (current imported_then_reported)) ∧
    seq_claims (seq (current ls2))
      = seq_claims (seq (current imported_then_reported)).
Proof.
  apply (importMerge_exportAll_is_noop imported_then_reported).
  do 2 constructor; constructor.
Defined.

(** ** Item status *)

(** C1 as stated fails twice. [addClaim] on a registered item makes it
    claimed without passing through lost, and [verifyReportMoveToLost] on a
    report for a claimed item makes that item lost again. *)
Lemma status_skips_and_regresses :
  (∃ it it',
     reachable registered_only ∧
     items (current registered_only) !! O = Some it ∧
     items (current (exec (OpAddClaim "2024-01-02T08:00:00.000Z" "a1" "Ana")
                       registered_only)) !! O = Some it' ∧
     Item.status it = "registered" ∧ Item.status it' = "claimed" ∧
     ¬ forward (Item.status it) (Item.status it')) ∧
  (∃ it it',
     reachable claimed_and_reported ∧
     items (current claimed_and_reported) !! O = Some it ∧
     items (current (exec (OpVerifyReportMoveToLost 1) claimed_and_reported))
       !! O = Some it' ∧
     Item.status it = "claimed" ∧ Item.status it' = "lost" ∧
     ¬ forward (Item.status it) (Item.status it')).
Proof.
  split.
  - eexists _, _. split_and!; try reflexivity.
    + constructor; constructor.
    + intros [H|[[_ H]|[H _]]]; discriminate H.
  - eexists _, _. split_and!; try reflexivity.
    + do 3 constructor; constructor.
    + intros [H|[[H _]|[H _]]]; discriminate H.
Qed.

Lemma insert_lookup_cases {A} (l : list A) (j i : nat) (x' x : A) :
  l !! i = Some x →
  (i = j ∧ <[j := x']> l !! i = Some x') ∨
  (i ≠ j ∧ <[j := x']> l !! i = Some x).
Proof.
  intros Hi. destruct (decide (i = j)) as [->|Hne].
  - left. split; [done|]. apply list_lookup_insert_eq. by eapply lookup_lt_Some.
  - right. split; [done|]. by rewrite list_lookup_insert_ne.
Qed.

(** C1, as amended. Every call of the API leaves each item of the store in
    its place, with its id, and either keeps its status or sets it to
    "lost" (only [verifyReportMoveToLost], from whatever status the item
    had) or to "claimed" (only [addClaim], from whatever status the item
    had); so no call brings an item back to "registered". *)
Theorem status_changes_by_call
    (ls : LocalStorage) (op : Op) (i : nat) (it : Item.t) :
  items (current ls) !! i = Some it →
  ∃ it',
    items (current (exec op ls)) !! i = Some it' ∧
    Item.id it' = Item.id it ∧
    (Item.status it' = Item.status it ∨
     (Item.status it' = "lost" ∧
      ∃ reportId, op = OpVerifyReportMoveToLost reportId) ∨
     (Item.status it' = "claimed" ∧
      ∃ now itemId claimantName, op = OpAddClaim now itemId claimantName)) ∧
    (Item.status it' = "registered" → Item.status it = "registered").
Proof.
  intros Hi.
  assert (Hsame : ∃ it', Some it = Some it' ∧ Item.id it' = Item.id it ∧
    (Item.status it' = Item.status it ∨
     (Item.status it' = "lost" ∧
      ∃ reportId, op = OpVerifyReportMoveToLost reportId) ∨
     (Item.status it' = "claimed" ∧
      ∃ now itemId claimantName, op = OpAddClaim now itemId claimantName)) ∧
    (Item.status it' = "registered" → Item.status it = "registered")).
  { exists it. split_and!; auto. }
  destruct op as [uuid now f|now f|rid|now itemId name|data]; cbn [exec].
  - rewrite addItem_run. cbn [snd current items].
    rewrite (lookup_app_l_Some _ _ _ _ Hi). exact Hsame.
  - rewrite addFoundReport_run. cbn [snd current items]. rewrite Hi. exact Hsame.
  - destruct (verifyReportMoveToLost_cases ls rid)
      as [->|(i' & report & j & item & _ & H2 & ->)];
      cbn [snd current items]; [rewrite Hi; exact Hsame|].
    destruct (insert_lookup_cases _ j i (moved_to_lost report item) _ Hi)
      as [[-> ->]|[_ ->]]; [|exact Hsame].
    apply Array_find_Some in H2 as (Hj & _). rewrite Hi in Hj. injection Hj as ->.
    eexists. split_and!; [reflexivity|apply moved_to_lost_id| |].
    + right; left. split; [apply moved_to_lost_status|by eexists].
    + rewrite moved_to_lost_status. discriminate.
  - destruct (addClaim_cases ls now itemId name) as [->|(j & item & H2 & ->)];
      cbn [snd current items]; [rewrite Hi; exact Hsame|].
    destruct (insert_lookup_cases _ j i
                (Item.set_lastClaimedAt (Some now) (Item.set_status "claimed" item))
                _ Hi) as [[-> ->]|[_ ->]]; [|exact Hsame].
    apply Array_find_Some in H2 as (Hj & _). rewrite Hi in Hj. injection Hj as ->.
    eexists. split_and!; [reflexivity|reflexivity| |].
    + right; right. split; [reflexivity|by eexists _, _, _].
    + discriminate.
  - destruct (importMerge_cases data ls) as [-> | [-> | ->]];
      cbn [snd current merged items]; [rewrite Hi; exact Hsame..|].
    rewrite (lookup_app_l_Some _ _ _ _ Hi). exact Hsame.
Qed.

Lemma status_changes_by_call_witness :
  ∃ it',
    items (current (exec (OpVerifyReportMoveToLost 1) claimed_and_reported))
      !! O = Some it' ∧
    Item.id it' = "a1" ∧
    (Item.status it' = "claimed" ∨
     (Item.status it' = "lost" ∧
      ∃ reportId, OpVerifyReportMoveToLost 1 = OpVerifyReportMoveToLost reportId) ∨
     (Item.status it' = "claimed" ∧
      ∃ now itemId claimantName,
        OpVerifyReportMoveToLost 1 = OpAddClaim now itemId claimantName)) ∧
    (Item.status it' = "registered" → "claimed" = "registered").
Proof.
  apply (status_changes_by_call claimed_and_reported (OpVerifyReportMoveToLost 1) O
           (Item.set_lastClaimedAt (Some "2024-01-02T08:00:00.000Z")
              (Item.set_status "claimed" wallet))).
  reflexivity.
Defined.

(** ** [listItemsByStudent] *)

(** [a < b] on strings is a strict total order. *)
Lemma ltb_lt (a b : string) : String.ltb a b = true ↔ String_as_OT.lt a b.
Proof.
  unfold String.ltb. rewrite <- String_as_OT.cmp_lt. unfold String_as_OT.cmp.
  destruct (String.compare a b); split; congruence.
Qed.

Lemma ltb_irrefl (a : string) : String.ltb a a = false.
Proof.
  apply not_true_is_false. rewrite ltb_lt. intros Hlt.
  by apply String_as_OT.lt_not_eq in Hlt.
Qed.

Lemma ltb_trans (a b c : string) :
  String.ltb a b = true → String.ltb b c = true → String.ltb a c = true.
Proof. rewrite !ltb_lt. apply String_as_OT.lt_trans. Qed.

Lemma ltb_asym (a b : string) : String.ltb a b = true → String.ltb b a = false.
Proof.
  intros Hab. apply not_true_is_false. intros Hba.
  pose proof (ltb_trans _ _ _ Hab Hba) as Haa. by rewrite ltb_irrefl in Haa.
Qed.

Lemma ltb_total (a b : string) :
  String.ltb a b = true ∨ a = b ∨ String.ltb b a = true.
Proof.
  unfold String.ltb. rewrite (String.compare_antisym b a).
  destruct (String.compare a b) eqn:E; cbn; auto.
  right; left. by apply String.compare_eq_iff.
Qed.

Lemma ltb_false_leb (a b : string) :
  String.ltb a b = false ↔ String.leb b a = true.
Proof.
  unfold String.ltb, String.leb. rewrite (String.compare_antisym b a).
  destruct (String.compare a b); cbn; split; congruence.
Qed.

Section SortByKey.
Context {A : Type} (key : A → string).

Lemma order_negative a b :
  (newest_first key a b <? 0)%Z = negb (String.ltb (key a) (key b)).
Proof. unfold newest_first. by destruct (String.ltb _ _). Qed.

Lemma order_nonnegative a b :
  (0 <=? (newest_first key) a b)%Z = String.ltb (key a) (key b).
Proof. unfold newest_first. by destruct (String.ltb _ _). Qed.

#[local] Instance not_older_trans : Transitive (not_older key).
Proof.
  unfold not_older. intros x y z Hxy Hyz. apply not_true_is_false. intros Hxz.
  destruct (ltb_total (key x) (key y)) as [H|[H|H]]; [congruence| |].
  - rewrite H in Hxz. congruence.
  - destruct (ltb_total (key y) (key z)) as [H'|[H'|H']]; [congruence| |].
    + rewrite <- H' in Hxz. apply ltb_asym in H. congruence.
    + pose proof (ltb_trans _ _ _ H' H) as Hzx. apply ltb_asym in Hzx.
      congruence.
Qed.

#[local] Instance flip_not_older_trans : Transitive (flip (not_older key)).
Proof. intros x y z Hxy Hyz. exact (not_older_trans _ _ _ Hyz Hxy). Qed.

Lemma older_not_older x y :
  String.ltb (key x) (key y) = true → (not_older key) y x.
Proof. apply ltb_asym. Qed.

(** *** CountAndMakeRun *)

Lemma run_tail_length d prev rest :
  (run_tail (newest_first key) d prev rest ≤ length rest)%nat.
Proof.
  revert prev. induction rest as [|cur rest IH]; intros prev; simpl; [lia|].
  specialize (IH cur). repeat case_match; lia.
Qed.

Lemma run_tail_descending prev rest :
  Sorted (flip (not_older key))
    (prev :: take (run_tail (newest_first key) true prev rest) rest).
Proof.
  revert prev. induction rest as [|cur rest IH]; intros prev; simpl.
  - repeat constructor.
  - rewrite order_nonnegative.
    destruct (String.ltb (key cur) (key prev)) eqn:E; simpl.
    + repeat constructor.
    + constructor; [apply IH|]. constructor. exact E.
Qed.

Lemma run_tail_ascending prev rest :
  Sorted (not_older key)
    (prev :: take (run_tail (newest_first key) false prev rest) rest).
Proof.
  revert prev. induction rest as [|cur rest IH]; intros prev; simpl.
  - repeat constructor.
  - rewrite order_negative.
    destruct (String.ltb (key cur) (key prev)) eqn:E; simpl.
    + constructor; [apply IH|]. constructor. by apply older_not_older.
    + repeat constructor.
Qed.

Lemma CountAndMakeRun_spec work :
  let '(work', runLength) := CountAndMakeRun (newest_first key) work in
  work' ≡ₚ work ∧ length work' = length work ∧
  (runLength ≤ length work)%nat ∧
  StronglySorted (not_older key) (take runLength work').
Proof.
  destruct work as [|hi [|lo rest]]; cbn [CountAndMakeRun].
  - split_and!; [done|done|done|]. constructor.
  - split_and!; [done|done|done|]. repeat constructor.
  - rewrite order_negative.
    pose proof (run_tail_length (negb (String.ltb (key lo) (key hi))) lo rest)
      as Hlen.
    destruct (String.ltb (key lo) (key hi)) eqn:E; cbn [negb] in *.
    + split_and!; [done|done|simpl; lia|].
      apply Sorted_StronglySorted; [apply _|]. simpl.
      constructor; [apply run_tail_ascending|].
      constructor. by apply older_not_older.
    + set (n := run_tail (newest_first key) true lo rest) in *.
      assert (Hrun : length (take (S (S n)) (hi :: lo :: rest)) = S (S n)).
      { rewrite length_take. simpl. lia. }
      split_and!.
      * rewrite reverse_Permutation. by rewrite take_drop.
      * rewrite length_app, length_reverse, <- length_app. by rewrite take_drop.
      * simpl. lia.
      * rewrite take_app_length' by (by rewrite length_reverse).
        apply Sorted_StronglySorted; [apply _|].
        change (not_older key) with (flip (flip (not_older key))).
        apply Sorted_reverse. simpl.
        constructor; [apply run_tail_descending|].
        constructor. exact E.
Qed.
(** *** BinaryInsertionSort *)

(** In a work array in order, the elements that the pivot does not go
    before all stand left of those it goes before. *)
Lemma insertion_point_spec sorted pivot turns left right :
  StronglySorted (not_older key) sorted →
  (right - left ≤ turns)%nat → (left ≤ right)%nat →
  (right ≤ length sorted)%nat →
  (∀ i e, (i < left)%nat → sorted !! i = Some e → ¬ (not_older key) pivot e) →
  (∀ i e, (right ≤ i)%nat → sorted !! i = Some e → (not_older key) pivot e) →
  let k := insertion_point (newest_first key) turns sorted pivot left right in
  (k ≤ length sorted)%nat ∧
  (∀ i e, (i < k)%nat → sorted !! i = Some e → ¬ (not_older key) pivot e) ∧
  (∀ i e, (k ≤ i)%nat → sorted !! i = Some e → (not_older key) pivot e).
Proof.
  intros Hsorted. revert left right.
  induction turns as [|turns IH]; intros left right Hturns Hle Hlen Hl Hr;
    cbn [insertion_point].
  - assert (left = right) as -> by lia. by split_and!.
  - destruct (Nat.ltb_spec left right) as [Hlt|Hge];
      [|assert (left = right) as -> by lia; by split_and!].
    assert (Hdiv : (Nat.div2 (right - left) < right - left)%nat)
      by (apply Nat.lt_div2; lia).
    remember (Nat.div2 (right - left)) as half eqn:Ehalf. clear Ehalf.
    remember (left + half)%nat as mid eqn:Emid.
    assert (Hmid : (left ≤ mid < right)%nat) by lia.
    destruct (lookup_lt_is_Some_2 sorted mid) as [e He]; [lia|].
    rewrite He, order_negative.
    destruct (String.ltb (key pivot) (key e)) eqn:E; cbn [negb].
    + apply IH; [lia..| |done].
      intros i e' Hi He' Hno.
      destruct (decide (i = mid)) as [->|Hne].
      { rewrite He in He'. injection He' as <-. unfold not_older in Hno.
        congruence. }
      assert ((not_older key) e' e).
      { apply (StronglySorted_app_1_elem_of _ (take mid sorted)
                 (drop mid sorted)).
        - by rewrite take_drop.
        - apply list_elem_of_lookup. exists i.
          rewrite lookup_take_lt by lia. done.
        - apply list_elem_of_lookup. exists O.
          rewrite lookup_drop, Nat.add_0_r. done. }
      assert ((not_older key) pivot e) by (by etrans).
      unfold not_older in *. congruence.
    + apply IH; [lia..|done|].
      intros i e' Hi He'.
      destruct (decide (i = mid)) as [->|Hne].
      { rewrite He in He'. by injection He' as <-. }
      destruct (decide (right ≤ i)%nat) as [Hri|Hri]; [by eapply Hr|].
      assert ((not_older key) e e'); [|by etrans].
      apply (StronglySorted_app_1_elem_of _ (take (S mid) sorted)
               (drop (S mid) sorted)).
      * by rewrite take_drop.
      * apply list_elem_of_lookup. exists mid.
        rewrite lookup_take_lt by lia. done.
      * apply list_elem_of_lookup. exists (i - S mid)%nat.
        rewrite lookup_drop. replace (S mid + (i - S mid))%nat with i by lia.
        done.
Qed.

Lemma slide_in_sorted sorted pivot :
  StronglySorted (not_older key) sorted →
  let left :=
    insertion_point (newest_first key) (length sorted) sorted pivot O
      (length sorted) in
  StronglySorted (not_older key) (take left sorted ++ pivot :: drop left sorted).
Proof.
  intros Hsorted.
  destruct (insertion_point_spec sorted pivot (length sorted) O
              (length sorted) Hsorted) as (Hk & Hbefore & Hafter);
    [lia..| | |].
  { intros i e Hi. lia. }
  { intros i e Hi He. apply lookup_lt_Some in He. lia. }
  cbn zeta.
  set (k := insertion_point _ _ _ _ _ _) in *.
  rewrite <- (take_drop k sorted) in Hsorted.
  apply StronglySorted_app in Hsorted as (Hcross & Htake & Hdrop).
  apply StronglySorted_app. split_and!; [|done|].
  - intros x y Hx Hy.
    apply elem_of_cons in Hy as [->|Hy]; [|by apply Hcross].
    apply list_elem_of_lookup in Hx as [i Hi].
    assert (Hik : (i < k)%nat).
    { apply lookup_lt_Some in Hi. rewrite length_take in Hi. lia. }
    rewrite lookup_take_lt in Hi by done.
    specialize (Hbefore i x Hik Hi). unfold not_older in Hbefore.
    apply older_not_older. by destruct (String.ltb (key pivot) (key x)).
  - apply StronglySorted_cons. split; [|done].
    apply Forall_forall. intros y Hy.
    apply list_elem_of_lookup in Hy as [i Hi]. rewrite lookup_drop in Hi.
    apply (Hafter (k + i)%nat); [lia|done].
Qed.

Lemma BinaryInsertionSort_spec sorted rest :
  StronglySorted (not_older key) sorted →
  StronglySorted (not_older key) (BinaryInsertionSort (newest_first key) sorted rest) ∧
  BinaryInsertionSort (newest_first key) sorted rest ≡ₚ sorted ++ rest.
Proof.
  revert sorted. induction rest as [|pivot rest IH]; intros sorted Hsorted;
    cbn [BinaryInsertionSort].
  - by rewrite app_nil_r.
  - destruct (IH _ (slide_in_sorted sorted pivot Hsorted)) as [Hs Hp].
    split; [done|]. rewrite Hp.
    set (left := insertion_point _ _ _ _ _ _).
    assert (Hslide : take left sorted ++ pivot :: drop left sorted
                       ≡ₚ pivot :: sorted).
    { rewrite <- Permutation_middle. by rewrite take_drop. }
    rewrite Hslide. cbn. apply Permutation_middle.
Qed.

Lemma Array_sort_spec arr :
  StronglySorted (not_older key) (Array_sort (newest_first key) arr) ∧
  Array_sort (newest_first key) arr ≡ₚ arr.
Proof.
  unfold Array_sort. destruct (Nat.ltb_spec (length arr) 2) as [Hshort|_].
  - split; [|done]. destruct arr as [|x [|y arr]]; [| |simpl in Hshort; lia];
      repeat constructor.
  - pose proof (CountAndMakeRun_spec arr) as Hrun.
    destruct (CountAndMakeRun (newest_first key) arr) as [work runLength].
    destruct Hrun as (Hperm & _ & _ & Hsorted).
    destruct (BinaryInsertionSort_spec _ (drop runLength work) Hsorted)
      as [Hs Hp].
    split; [done|]. by rewrite Hp, take_drop.
Qed.
End SortByKey.

Lemma byCreatedAt_newest_first :
  byCreatedAt = newest_first Item.createdAt.
Proof. reflexivity. Qed.

Lemma not_older_descending (l : list Item.t) :
  StronglySorted (not_older Item.createdAt) l →
  StronglySorted createdAt_descending l.
Proof.
  induction 1 as [|x l _ IH Hx]; constructor; [done|].
  eapply Forall_impl; [exact Hx|]. intros y Hy. by apply ltb_false_leb.
Qed.

(** C9 as stated fails on a tie. The comparator answers -1 for two items
    with equal createdAt whichever comes first, so the sort is never told
    of the tie: [CountAndMakeRun] asks [comparefn(cap, pen)], takes the
    answer -1 for a descending run and reverses it. The item inserted
    later is listed first. *)
Lemma listItemsByStudent_reverses_tie :
  reachable same_instant ∧
  items (current same_instant) = [pen; cap] ∧
  Item.studentId pen = "S1" ∧ Item.studentId cap = "S1" ∧
  Item.createdAt pen = Item.createdAt cap ∧
  fst (listItemsByStudent "S1" same_instant) = Normal [cap; pen] ∧
  ¬ keeps_insertion_order [pen; cap] [cap; pen].
Proof.
  split_and!; try reflexivity.
  - do 2 constructor; constructor.
  - intros Hkeep.
    destruct (Hkeep O (S O) pen cap) as (i' & j' & Hlt & Hi & Hj);
      [lia|reflexivity..|].
    destruct i' as [|[|i']]; [discriminate Hi| |discriminate Hi].
    destruct j' as [|j']; [lia|]. destruct j' as [|j']; discriminate Hj.
Qed.

(** C9, as amended. [listItemsByStudent] leaves the store alone and returns
    exactly the items whose studentId is the argument, character for
    character, each as often as the store holds it, in order of createdAt
    descending. Nothing is promised on the order of items with equal
    createdAt. *)
Theorem listItemsByStudent_result (ls : LocalStorage) (studentId : string) :
  ∃ result,
    listItemsByStudent studentId ls = (Normal result, Some (current ls)) ∧
    result ≡ₚ List.filter (λ item, String.eqb (Item.studentId item) studentId)
                (items (current ls)) ∧
    (∀ x, x ∈ result ↔ x ∈ items (current ls) ∧ Item.studentId x = studentId) ∧
    StronglySorted createdAt_descending result.
Proof.
  unfold listItemsByStudent. rewrite bind_load. unfold ret.
  eexists. split; [reflexivity|].
  rewrite byCreatedAt_newest_first.
  destruct (Array_sort_spec Item.createdAt
              (List.filter (λ item, String.eqb (Item.studentId item) studentId)
                 (items (current ls)))) as [Hs Hp].
  split_and!.
  - exact Hp.
  - intros x. rewrite Hp, list_elem_of_In, List.filter_In, <- list_elem_of_In.
    by rewrite String.eqb_eq.
  - by apply not_older_descending.
Qed.

(** * Further properties *)

(** ** [addItem], [getItem] and [addFoundReport] *)

Lemma item_of_getItem id ls :
  fst (getItem id ls) = Normal (item_of (current ls) id).
Proof. by rewrite getItem_current. Qed.

Lemma Array_find_app_fresh {A} (pred : A → bool) arr x :
  Array_find pred arr = None → pred x = true →
  Array_find pred (arr ++ [x]) = Some (length arr, x).
Proof.
  intros Hnone Hp. unfold Array_find in *.
  rewrite list_find_app_r by done. cbn. by rewrite decide_True.
Qed.

Lemma Array_find_app_other {A} (pred : A → bool) arr x :
  pred x = false →
  snd <$> Array_find pred (arr ++ [x]) = snd <$> Array_find pred arr.
Proof.
  intros Hp. unfold Array_find.
  destruct (list_find (λ y, pred y = true) arr) as [[i y]|] eqn:E.
  - by rewrite (list_find_app_l _ _ _ _ _ E).
  - rewrite list_find_app_r by done. cbn.
    rewrite decide_False by (rewrite Hp; discriminate). done.
Qed.

Lemma Array_find_app_old {A} (pred : A → bool) arr x i y :
  Array_find pred arr = Some (i, y) →
  Array_find pred (arr ++ [x]) = Some (i, y).
Proof. unfold Array_find. apply list_find_app_l. Qed.

(** X1. An item registered under an id that no item carries is the one
    [getItem] returns for that id; under an id already taken, [getItem]
    keeps returning the older item. Lookups of other ids are not affected. *)
Theorem addItem_then_getItem
    (ls : LocalStorage) (uuid now : string) (f : ItemFields) :
  ((∀ x, x ∈ items (current ls) → Item.id x ≠ uuid) →
   ∃ item,
     fst (addItem uuid now f ls) = Normal item ∧
     fst (getItem uuid (snd (addItem uuid now f ls))) = Normal (Some item)) ∧
  (∀ old, fst (getItem uuid ls) = Normal (Some old) →
          fst (getItem uuid (snd (addItem uuid now f ls))) = Normal (Some old)) ∧
  (∀ id, id ≠ uuid →
         fst (getItem id (snd (addItem uuid now f ls))) = fst (getItem id ls)).
Proof.
  rewrite addItem_run. cbn zeta. cbn [fst snd]. split_and!.
  - intros Hfresh. eexists. split; [reflexivity|].
    rewrite getItem_current, current_Some. cbn [fst items].
    rewrite Array_find_app_fresh; [done| |by rewrite String.eqb_refl].
    apply Array_find_None. intros x Hx Heq. apply (Hfresh x Hx).
    by apply String.eqb_eq.
  - intros old. rewrite !getItem_current, current_Some. cbn [fst items].
    intros [= Hold].
    destruct (Array_find _ (items (current ls))) as [[i y]|] eqn:E; [|done].
    rewrite (Array_find_app_old _ _ _ _ _ E). by f_equal.
  - intros id Hne. rewrite !getItem_current, current_Some. cbn [fst items].
    rewrite Array_find_app_other; [done|]. cbn. by apply String.eqb_neq.
Qed.

Lemma addItem_then_getItem_witness :
  (∃ item,
     fst (addItem "b7" "2024-01-04T08:00:00.000Z" cap_fields registered_only)
       = Normal item ∧
     fst (getItem "b7"
            (snd (addItem "b7" "2024-01-04T08:00:00.000Z" cap_fields
                    registered_only))) = Normal (Some item)) ∧
  fst (getItem "a1"
         (snd (addItem "a1" "2024-01-04T08:00:00.000Z" cap_fields
                 registered_only))) = Normal (Some wallet) ∧
  fst (getItem "a1"
         (snd (addItem "b7" "2024-01-04T08:00:00.000Z" cap_fields
                 registered_only))) = fst (getItem "a1" registered_only).
Proof.
  destruct (addItem_then_getItem registered_only "b7"
              "2024-01-04T08:00:00.000Z" cap_fields) as (Hfresh & _ & Hother).
  destruct (addItem_then_getItem registered_only "a1"
              "2024-01-04T08:00:00.000Z" cap_fields) as (_ & Htaken & _).
  split; [|split].
  - apply Hfresh.
    intros x Hx. apply list_elem_of_singleton in Hx as ->. discriminate.
  - apply Htaken. reflexivity.
  - apply Hother. discriminate.
Defined.

Lemma or_null_not_empty o : not_empty (or_null o).
Proof.
  unfold not_empty, or_null. destruct o as [s|]; [|done].
  destruct (String.eqb_spec s ""); congruence.
Qed.

Lemma or_else_not_empty o alt : alt ≠ "" → or_else o alt ≠ "".
Proof.
  intros Halt. unfold or_else. destruct o as [s|]; [|done].
  by destruct (String.eqb_spec s "").
Qed.

Lemma or_null_null_if_empty o : null_if_empty o (or_null o).
Proof.
  unfold null_if_empty, or_null. split.
  - by intros [-> | ->].
  - intros s -> Hs. by destruct (String.eqb_spec s "").
Qed.

(** X2. [addItem] always succeeds and appends one item, registered, stamped
    with the current time, with no found photo and no claim time. An absent
    or empty category is stored as "other" and any other category as it is;
    an absent or empty strand, email, contact or photo is stored as null and
    any other as it is, so none of the five fields ever holds an empty
    string. Found reports, claims and counters are not touched. *)
Theorem addItem_appends_registered_item
    (ls : LocalStorage) (uuid now : string) (f : ItemFields) :
  ∃ item,
    fst (addItem uuid now f ls) = Normal item ∧
    current (snd (addItem uuid now f ls))
      = mkStore (items (current ls) ++ [item]) (found_reports (current ls))
          (claims (current ls)) (seq (current ls)) ∧
    Item.id item = uuid ∧ Item.status item = "registered" ∧
    Item.createdAt item = now ∧
    Item.itemName item = f_itemName f ∧ Item.studentId item = f_studentId f ∧
    Item.ownerName item = f_ownerName f ∧
    Item.foundPhotoPath item = None ∧ Item.lastClaimedAt item = None ∧
    (f_category f = None ∨ f_category f = Some "" → Item.category item = "other") ∧
    (∀ s, f_category f = Some s → s ≠ "" → Item.category item = s) ∧
    null_if_empty (f_strand f) (Item.strand item) ∧
    null_if_empty (f_email f) (Item.email item) ∧
    null_if_empty (f_contact f) (Item.contact item) ∧
    null_if_empty (f_photoDataUrl f) (Item.photoPath item) ∧
    Item.category item ≠ "" ∧
    not_empty (Item.strand item) ∧ not_empty (Item.email item) ∧
    not_empty (Item.contact item) ∧ not_empty (Item.photoPath item).
Proof.
  rewrite addItem_run. cbn zeta. cbn [fst snd current].
  eexists. split_and!; try reflexivity; cbn;
    try apply or_null_null_if_empty; try apply or_null_not_empty.
  - by intros [-> | ->].
  - intros s -> Hs. cbn. by destruct (String.eqb_spec s "").
  - by apply or_else_not_empty.
Qed.

Lemma addItem_appends_registered_item_witness :
  ∃ item,
    fst (addItem "a9" "2024-01-04T08:00:00.000Z"
           (mkItemFields "Pen" "S1" "Ana" (Some "") None (Some "0917") None (Some ""))
           None) = Normal item ∧
    Item.category item = "other" ∧ Item.strand item = None ∧
    Item.email item = None ∧ Item.contact item = Some "0917".
Proof.
  destruct (addItem_appends_registered_item None "a9" "2024-01-04T08:00:00.000Z"
              (mkItemFields "Pen" "S1" "Ana" (Some "") None (Some "0917") None (Some "")))
    as (item & Hrun & _ & _ & _ & _ & _ & _ & _ & _ & _ & Hcat & _
        & [Hstrand _] & [Hemail _] & [_ Hcontact] & _).
  exists item. split; [exact Hrun|]. split_and!.
  - apply Hcat. by right.
  - apply Hstrand. by right.
  - apply Hemail. by left.
  - by apply Hcontact.
Defined.

(** X3. [addFoundReport] never checks the item id: it succeeds whether or
    not an item carries it, appends a pending report with the fields given
    (an absent or empty photo as null) and sets the counter to the id of
    that report. The id is the found-reports counter plus one as JavaScript
    adds Numbers: the counter plus one while the counter is below 2^53, and
    2^53 again once the counter is 2^53; the next report gets its id from
    this one in the same way. Items, claims and the claims counter are not
    touched. *)
Theorem addFoundReport_appends_pending_report
    (ls : LocalStorage) (now : string) (f : ReportFields) :
  ∃ report,
    fst (addFoundReport now f ls) = Normal report ∧
    current (snd (addFoundReport now f ls))
      = mkStore (items (current ls)) (found_reports (current ls) ++ [report])
          (claims (current ls))
          (mkSeq (FoundReport.id report) (seq_claims (seq (current ls)))) ∧
    FoundReport.id report = Number_add1 (seq_found_reports (seq (current ls))) ∧
    (seq_found_reports (seq (current ls)) < 2 ^ 53 →
     FoundReport.id report = seq_found_reports (seq (current ls)) + 1) ∧
    (seq_found_reports (seq (current ls)) = 2 ^ 53 →
     FoundReport.id report = 2 ^ 53) ∧
    FoundReport.itemId report = f_itemId f ∧
    FoundReport.finderName report = f_finderName f ∧
    FoundReport.location report = f_location f ∧
    FoundReport.status report = "pending" ∧
    FoundReport.createdAt report = now ∧
    null_if_empty (f_photo f) (FoundReport.photoPath report) ∧
    (∀ now' f', ∃ next,
        fst (addFoundReport now' f' (snd (addFoundReport now f ls))) = Normal next ∧
        FoundReport.id next = Number_add1 (FoundReport.id report) ∧
        (FoundReport.id report < 2 ^ 53 →
         FoundReport.id next = FoundReport.id report + 1) ∧
        (FoundReport.id report = 2 ^ 53 →
         FoundReport.id next = FoundReport.id report)).
Proof.
  rewrite addFoundReport_run. cbn zeta. cbn [fst snd current].
  eexists. split_and!; try reflexivity; cbn [FoundReport.id FoundReport.photoPath].
  - apply Number_add1_exact.
  - by intros ->.
  - apply or_null_null_if_empty.
  - intros now' f'. rewrite addFoundReport_run. cbn zeta. cbn [fst].
    eexists. split_and!; try reflexivity;
      cbn [FoundReport.id current seq seq_found_reports].
    + apply Number_add1_exact.
    + by intros ->.
Qed.

Lemma addFoundReport_appends_pending_report_witness :
  ∃ report,
    fst (addFoundReport "2024-03-02T09:00:00.000Z"
           (mkReportFields "zz" "Cy" "Canteen" (Some "")) registered_only)
      = Normal report ∧
    FoundReport.id report = 1 ∧ FoundReport.photoPath report = None ∧
    ∃ next,
      fst (addFoundReport "2024-03-03T09:00:00.000Z"
             (mkReportFields "a1" "Di" "Gym" None)
             (snd (addFoundReport "2024-03-02T09:00:00.000Z"
                     (mkReportFields "zz" "Cy" "Canteen" (Some ""))
                     registered_only))) = Normal next ∧
      FoundReport.id next = FoundReport.id report + 1.
Proof.
  destruct (addFoundReport_appends_pending_report registered_only
              "2024-03-02T09:00:00.000Z"
              (mkReportFields "zz" "Cy" "Canteen" (Some "")))
    as (report & Hrun & _ & _ & Hid & _ & _ & _ & _ & _ & _ & [Hphoto _] & Hnext).
  exists report. split; [exact Hrun|]. split; [apply Hid; reflexivity|].
  split; [apply Hphoto; by right|].
  destruct (Hnext "2024-03-03T09:00:00.000Z" (mkReportFields "a1" "Di" "Gym" None))
    as (next & Hrun' & _ & Hsucc & _).
  exists next. split; [exact Hrun'|]. apply Hsucc.
  injection Hrun as <-. reflexivity.
Defined.

(** ** Ids stay unique *)

Lemma reachable_by_reachable P ls : reachable_by P ls → reachable ls.
Proof. induction 1; by constructor. Qed.

Lemma NoDup_fmap_filter {A B} (f : A → B) (p : A → bool) (l : list A) :
  NoDup (f <$> l) → NoDup (f <$> List.filter p l).
Proof.
  induction l as [|x l IH]; cbn; [done|].
  rewrite NoDup_cons. intros [Hx Hl]. destruct (p x); cbn; [|by apply IH].
  apply NoDup_cons. split; [|by apply IH].
  intros Hin. apply Hx. apply list_elem_of_fmap in Hin as (y & -> & Hy).
  apply list_elem_of_fmap_2. apply list_elem_of_In in Hy.
  apply List.filter_In in Hy as [Hy _]. by apply list_elem_of_In.
Qed.

Lemma NoDup_merged {K A} `{Countable K} (uniqueBy : A → K) arr c :
  NoDup (uniqueBy <$> arr) → NoDup (uniqueBy <$> records c) →
  NoDup (uniqueBy <$> (arr ++ missing uniqueBy arr c)).
Proof.
  intros Harr Hc. rewrite fmap_app. apply NoDup_app. split_and!.
  - done.
  - intros k Hk Hin. apply list_elem_of_fmap in Hin as (y & -> & Hy).
    apply elem_of_missing in Hy as [_ Hy]. by apply Hy.
  - by apply NoDup_fmap_filter.
Qed.

(** The id issued from a counter that covers the ids is new as long as the
    counter it leaves is below 2^53. *)
Lemma NoDup_snoc_above (ids : list N) (counter : N) :
  (∀ n, n ∈ ids → n ≤ counter) → Number_add1 counter < 2 ^ 53 →
  NoDup ids → NoDup (ids ++ [Number_add1 counter]).
Proof.
  intros Hcov Hlt Hids.
  apply NoDup_app. split_and!; [done| |apply NoDup_singleton].
  intros n Hn ->%list_elem_of_singleton. specialize (Hcov _ Hn).
  pose proof (Number_add1_above counter (Number_add1 counter) Hcov Hlt). lia.
Qed.

Lemma exec_seq_monotone op ls :
  seq_found_reports (seq (current ls))
    ≤ seq_found_reports (seq (current (exec op ls))) ∧
  seq_claims (seq (current ls)) ≤ seq_claims (seq (current (exec op ls))).
Proof.
  destruct op as [uuid now f|now f|rid|now itemId name|data]; cbn [exec].
  - rewrite addItem_run. cbn [snd current seq]. lia.
  - rewrite addFoundReport_run.
    cbn [snd current seq seq_found_reports seq_claims].
    pose proof (Number_add1_ge (seq_found_reports (seq (current ls)))). lia.
  - destruct (verifyReportMoveToLost_cases ls rid)
      as [->|(i & report & j & item & _ & _ & ->)];
      cbn [snd current seq]; lia.
  - destruct (addClaim_cases ls now itemId name) as [->|(j & item & _ & ->)];
      cbn [snd current seq seq_found_reports seq_claims]; [lia|].
    pose proof (Number_add1_ge (seq_claims (seq (current ls)))). lia.
  - destruct (importMerge_cases data ls) as [-> | [-> | ->]];
      cbn [snd current merged seq seq_found_reports seq_claims]; [lia..|].
    split; (etrans; [|apply Math_max_ge, list_elem_of_here]);
      by rewrite or0_id.
Qed.

Lemma exec_unique_ids op ls :
  seq_covers (current ls) → unique_ids (current ls) → repeats_no_id op →
  unique_ids (current (exec op ls)).
Proof.
  intros [Hf Hc] [Uf Uc] Hop.
  destruct (exec_seq_monotone op ls) as [Mf Mc]. revert Mf Mc.
  destruct op as [uuid now f|now f|rid|now itemId name|data]; cbn [exec].
  - rewrite addItem_run. by split.
  - rewrite addFoundReport_run. cbn zeta. cbn [snd current].
    cbn [seq seq_found_reports seq_claims]. intros Mf _.
    split; cbn [found_reports claims seq seq_found_reports seq_claims]; [|done].
    intros Hlt. rewrite fmap_app. cbn [fmap list_fmap FoundReport.id].
    apply NoDup_snoc_above; [done..|]. apply Uf. lia.
  - destruct (verifyReportMoveToLost_cases ls rid)
      as [->|(i & report & j & item & H1 & _ & ->)]; [by split|].
    cbn [snd current]. intros _ _.
    split; cbn [found_reports claims seq]; [|done].
    rewrite list_fmap_insert, list_insert_id; [done|].
    apply Array_find_Some in H1 as (Hi & _). by rewrite list_lookup_fmap, Hi.
  - destruct (addClaim_cases ls now itemId name) as [->|(j & item & _ & ->)];
      [by split|].
    cbn [snd current]. cbn [seq seq_found_reports seq_claims]. intros _ Mc.
    split; cbn [found_reports claims seq seq_found_reports seq_claims]; [done|].
    intros Hlt. rewrite fmap_app. cbn [fmap list_fmap Claim.id].
    apply NoDup_snoc_above; [done..|]. apply Uc. lia.
  - destruct Hop as [Hdf Hdc].
    destruct (importMerge_cases data ls) as [-> | [-> | ->]];
      [by split|by split|].
    cbn [snd current merged]. cbn [seq seq_found_reports seq_claims].
    intros Mf Mc.
    split; cbn [found_reports claims seq seq_found_reports seq_claims];
      intros Hlt; (apply NoDup_merged; [|done]); [apply Uf | apply Uc]; lia.
Qed.

(** X4. From a fresh browser, as long as no imported snapshot repeats an id
    within its own found reports or its own claims, no two found reports of
    the store share an id while the found-reports counter is below 2^53, and
    no two claims do while the claims counter is below 2^53: up to there the
    ids the counters issue never collide with each other or with imported
    ones. *)
Theorem report_and_claim_ids_unique (ls : LocalStorage) :
  reachable_by repeats_no_id ls →
  (seq_found_reports (seq (current ls)) < 2 ^ 53 →
   NoDup (FoundReport.id <$> found_reports (current ls))) ∧
  (seq_claims (seq (current ls)) < 2 ^ 53 →
   NoDup (Claim.id <$> claims (current ls))).
Proof.
  induction 1 as [|ls op Hreach IH Hop].
  - split; constructor.
  - apply exec_unique_ids; [|done..].
    by eapply reachable_seq_covers, reachable_by_reachable.
Qed.

Lemma report_and_claim_ids_unique_witness :
  NoDup (FoundReport.id <$> found_reports (current imported_then_reported)) ∧
  NoDup (Claim.id <$> claims (current imported_then_reported)).
Proof.
  destruct (report_and_claim_ids_unique imported_then_reported) as [Hf Hc].
  - constructor; [constructor; [constructor|]|exact I].
    split; [|constructor]. apply NoDup_singleton.
  - split; [apply Hf | apply Hc]; reflexivity.
Defined.

(** At 2^53 the counter stops advancing: with a report of that id imported,
    the next report gets the same id. *)
Example addFoundReport_repeats_2_53 :
  repeats_no_id (OpImportMerge snapshot_2_53) ∧
  FoundReport.id <$>
    found_reports (current (exec (OpAddFoundReport "2024-03-02T09:00:00.000Z"
                                    (mkReportFields "a1" "Cy" "Canteen" None))
                              imported_2_53))
  = [2 ^ 53; 2 ^ 53].
Proof.
  split; [|reflexivity]. split; apply NoDup_singleton.
Qed.

(** [mergeArray] looks only at the ids the collection had before the loop:
    a snapshot that repeats a new id gets both records in. *)
Example importMerge_repeated_id :
  FoundReport.id <$>
    found_reports (current (exec (OpImportMerge
       (JsObject (mkSnapshot Absent
                    (Elems [Some report57; Some report57]) Absent))) None))
  = [57; 57].
Proof. reflexivity. Qed.

(** ** Frames of [verifyReportMoveToLost] and [addClaim] *)

Lemma moved_to_lost_twice report item v :
  moved_to_lost (FoundReport.set_status v report) (moved_to_lost report item)
  = moved_to_lost report item.
Proof.
  unfold moved_to_lost, has_photo. cbn.
  destruct (FoundReport.photoPath report) as [p|]; [|done].
  by destruct (negb (String.eqb p "")).
Qed.

(** X5. Verifying a report a second time returns true again and leaves the
    store exactly as the first verification left it. *)
Theorem verifyReportMoveToLost_idempotent
    (ls ls' : LocalStorage) (reportId : N) :
  verifyReportMoveToLost reportId ls = (Normal true, ls') →
  verifyReportMoveToLost reportId ls' = (Normal true, ls').
Proof.
  intros (i & report & j & item & H1 & H2 & ->)%verifyReportMoveToLost_true.
  assert (H1' : Array_find (λ x, FoundReport.id x =? reportId)
                  (<[i := FoundReport.set_status "verified" report]>
                     (found_reports (current ls)))
                = Some (i, FoundReport.set_status "verified" report)).
  { eapply Array_find_insert; [exact H1|].
    apply Array_find_Some in H1 as (_ & Hp & _). exact Hp. }
  assert (H2' : Array_find (λ x, String.eqb (Item.id x) (FoundReport.itemId report))
                  (<[j := moved_to_lost report item]> (items (current ls)))
                = Some (j, moved_to_lost report item)).
  { eapply Array_find_insert; [exact H2|]. rewrite moved_to_lost_id.
    apply Array_find_Some in H2 as (_ & Hp & _). exact Hp. }
  erewrite verifyReportMoveToLost_found;
    [|rewrite current_Some; exact H1'|rewrite current_Some; exact H2'].
  rewrite current_Some. cbn [items found_reports claims seq].
  by rewrite moved_to_lost_twice, !list_insert_insert_eq.
Qed.

Lemma verifyReportMoveToLost_idempotent_witness :
  verifyReportMoveToLost 1 (exec (OpVerifyReportMoveToLost 1) claimed_and_reported)
  = (Normal true, exec (OpVerifyReportMoveToLost 1) claimed_and_reported).
Proof.
  apply (verifyReportMoveToLost_idempotent claimed_and_reported). reflexivity.
Defined.

(** X6. Every call leaves each found report in its place; the only change
    a report ever sees is its status set to "verified", by
    [verifyReportMoveToLost] on its id. So a verified report is never
    pending again, and no call edits or removes a report. *)
Theorem report_changes_by_call
    (ls : LocalStorage) (op : Op) (i : nat) (r : FoundReport.t) :
  found_reports (current ls) !! i = Some r →
  ∃ r',
    found_reports (current (exec op ls)) !! i = Some r' ∧
    (r' = r ∨
     (r' = FoundReport.set_status "verified" r ∧
      op = OpVerifyReportMoveToLost (FoundReport.id r))) ∧
    (FoundReport.status r = "verified" → FoundReport.status r' = "verified").
Proof.
  intros Hi.
  assert (Hsame : ∃ r', Some r = Some r' ∧
    (r' = r ∨
     (r' = FoundReport.set_status "verified" r ∧
      op = OpVerifyReportMoveToLost (FoundReport.id r))) ∧
    (FoundReport.status r = "verified" → FoundReport.status r' = "verified")).
  { exists r. split_and!; auto. }
  destruct op as [uuid now f|now f|rid|now itemId name|data]; cbn [exec].
  - rewrite addItem_run. cbn [snd current found_reports]. rewrite Hi.
    exact Hsame.
  - rewrite addFoundReport_run. cbn [snd current found_reports].
    rewrite (lookup_app_l_Some _ _ _ _ Hi). exact Hsame.
  - destruct (verifyReportMoveToLost_cases ls rid)
      as [->|(i' & report & j & item & H1 & _ & ->)];
      cbn [snd current found_reports]; [rewrite Hi; exact Hsame|].
    destruct (insert_lookup_cases _ i' i
                (FoundReport.set_status "verified" report) _ Hi)
      as [[-> ->]|[_ ->]]; [|exact Hsame].
    apply Array_find_Some in H1 as (Hi' & Hid & _).
    rewrite Hi in Hi'. injection Hi' as ->. apply N.eqb_eq in Hid as ->.
    eexists. split_and!; [reflexivity|by right|done].
  - destruct (addClaim_cases ls now itemId name) as [->|(j & item & _ & ->)];
      cbn [snd current found_reports]; rewrite Hi; exact Hsame.
  - destruct (importMerge_cases data ls) as [-> | [-> | ->]];
      cbn [snd current merged found_reports]; [rewrite Hi; exact Hsame..|].
    rewrite (lookup_app_l_Some _ _ _ _ Hi). exact Hsame.
Qed.

Lemma report_changes_by_call_witness :
  ∃ r',
    found_reports (current (exec (OpVerifyReportMoveToLost 1)
                              claimed_and_reported)) !! O = Some r' ∧
    FoundReport.status r' = "verified".
Proof.
  destruct (report_changes_by_call claimed_and_reported
              (OpVerifyReportMoveToLost 1) O
              (FoundReport.mk 1 "a1" "Ben" "Library" None "pending"
                 "2024-01-03T08:00:00.000Z") eq_refl)
    as (r' & Hr' & _ & _).
  exists r'. split; [exact Hr'|].
  cbv in Hr'. injection Hr' as <-. reflexivity.
Defined.

(** X7. A successful [verifyReportMoveToLost] touches one report and one
    item and nothing else: every other report and item, all claims and both
    counters are as before. Of the item it changes only the status and,
    when the report has a photo, the found photo; the owner's photo and the
    claim time stay. *)
Theorem verifyReportMoveToLost_frame
    (ls ls' : LocalStorage) (reportId : N) :
  verifyReportMoveToLost reportId ls = (Normal true, ls') →
  ∃ i j report item item',
    Array_find (λ x, FoundReport.id x =? reportId) (found_reports (current ls))
      = Some (i, report) ∧
    items (current ls) !! j = Some item ∧
    items (current ls') !! j = Some item' ∧
    (∀ k, k ≠ i → found_reports (current ls') !! k = found_reports (current ls) !! k) ∧
    (∀ k, k ≠ j → items (current ls') !! k = items (current ls) !! k) ∧
    length (found_reports (current ls')) = length (found_reports (current ls)) ∧
    length (items (current ls')) = length (items (current ls)) ∧
    claims (current ls') = claims (current ls) ∧
    seq (current ls') = seq (current ls) ∧
    Item.set_foundPhotoPath (Item.foundPhotoPath item)
      (Item.set_status (Item.status item) item') = item ∧
    (FoundReport.photoPath report = None ∨ FoundReport.photoPath report = Some "" →
     Item.foundPhotoPath item' = Item.foundPhotoPath item).
Proof.
  intros (i & report & j & item & H1 & H2 & ->)%verifyReportMoveToLost_true.
  exists i, j, report, item, (moved_to_lost report item).
  pose proof H2 as (Hj & _)%Array_find_Some.
  rewrite current_Some. cbn [items found_reports claims seq].
  split_and!; try done.
  - apply list_lookup_insert_eq. by eapply lookup_lt_Some.
  - intros k Hk. by rewrite list_lookup_insert_ne.
  - intros k Hk. by rewrite list_lookup_insert_ne.
  - apply length_insert.
  - apply length_insert.
  - unfold moved_to_lost. destruct item. by destruct (has_photo report).
  - unfold moved_to_lost, has_photo. by intros [-> | ->].
Qed.

Lemma verifyReportMoveToLost_frame_witness :
  ∃ i j report item item',
    Array_find (λ x, FoundReport.id x =? 1)
      (found_reports (current claimed_and_reported)) = Some (i, report) ∧
    items (current claimed_and_reported) !! j = Some item ∧
    items (current (exec (OpVerifyReportMoveToLost 1) claimed_and_reported))
      !! j = Some item' ∧
    Item.lastClaimedAt item' = Item.lastClaimedAt item.
Proof.
  destruct (verifyReportMoveToLost_frame claimed_and_reported
              (exec (OpVerifyReportMoveToLost 1) claimed_and_reported) 1 eq_refl)
    as (i & j & report & item & item' & H1 & Hj & Hj' & _ & _ & _ & _ & _ & _ & Hrest & _).
  exists i, j, report, item, item'. split_and!; [done..|].
  rewrite <- Hrest. reflexivity.
Defined.

(** X8. A successful [addClaim] appends one claim, stamped with the current
    time, and sets the claims counter to the id of that claim: the counter
    plus one as JavaScript adds Numbers, so the counter rises by one while
    it is below 2^53 and stays as it is at 2^53. The call touches one item
    and changes only its status and claim time (the found photo stays).
    Found reports, their counter and all other items are as before. *)
Theorem addClaim_frame
    (ls : LocalStorage) (now itemId claimantName : string) (claim : Claim.t) :
  fst (addClaim now itemId claimantName ls) = Normal (Some claim) →
  ∃ j item item',
    items (current ls) !! j = Some item ∧ Item.id item = itemId ∧
    items (current (snd (addClaim now itemId claimantName ls))) !! j = Some item' ∧
    (∀ k, k ≠ j →
          items (current (snd (addClaim now itemId claimantName ls))) !! k
            = items (current ls) !! k) ∧
    length (items (current (snd (addClaim now itemId claimantName ls))))
      = length (items (current ls)) ∧
    Item.set_lastClaimedAt (Item.lastClaimedAt item)
      (Item.set_status (Item.status item) item') = item ∧
    Item.status item' = "claimed" ∧ Item.lastClaimedAt item' = Some now ∧
    found_reports (current (snd (addClaim now itemId claimantName ls)))
      = found_reports (current ls) ∧
    claims (current (snd (addClaim now itemId claimantName ls)))
      = claims (current ls) ++ [claim] ∧
    Claim.createdAt claim = now ∧
    seq (current (snd (addClaim now itemId claimantName ls)))
      = mkSeq (seq_found_reports (seq (current ls))) (Claim.id claim) ∧
    Claim.id claim = Number_add1 (seq_claims (seq (current ls))) ∧
    (seq_claims (seq (current ls)) < 2 ^ 53 →
     Claim.id claim = seq_claims (seq (current ls)) + 1) ∧
    (seq_claims (seq (current ls)) = 2 ^ 53 → Claim.id claim = 2 ^ 53).
Proof.
  destruct (addClaim_cases ls now itemId claimantName)
    as [->|(j & item & H2 & ->)]; [done|].
  cbn [fst snd current items found_reports claims seq]. intros [= <-].
  pose proof H2 as (Hj & Hid%String.eqb_eq & _)%Array_find_Some.
  eexists j, item, _. cbn [Claim.id]. split_and!; try done.
  - apply list_lookup_insert_eq. by eapply lookup_lt_Some.
  - intros k Hk. by rewrite list_lookup_insert_ne.
  - apply length_insert.
  - by destruct item.
  - by destruct item.
  - by destruct item.
  - apply Number_add1_exact.
  - by intros ->.
Qed.

Lemma addClaim_frame_witness :
  ∃ j item item',
    items (current claimed_and_reported) !! j = Some item ∧
    Item.id item = "a1" ∧
    items (current (snd (addClaim "2024-01-09T08:00:00.000Z" "a1" "Ana"
                           claimed_and_reported))) !! j = Some item' ∧
    length (claims (current (snd (addClaim "2024-01-09T08:00:00.000Z" "a1" "Ana"
                           claimed_and_reported)))) = 2%nat ∧
    seq_claims (seq (current (snd (addClaim "2024-01-09T08:00:00.000Z" "a1" "Ana"
                           claimed_and_reported)))) = 2.
Proof.
  destruct (addClaim_frame claimed_and_reported "2024-01-09T08:00:00.000Z"
              "a1" "Ana"
              (Claim.mk 2 "a1" "Ana" "2024-01-09T08:00:00.000Z") eq_refl)
    as (j & item & item' & Hj & Hid & Hj' & _ & _ & _ & _ & _ & _ & Hclaims & _
        & Hseq & _).
  exists j, item, item'. split_and!; [done..| |].
  - by rewrite Hclaims.
  - by rewrite Hseq.
Defined.

(** X9. No call ever removes a record or lowers a counter: after any call
    each collection is at least as long as before, every claim is
    unchanged in its place, and both sequence counters are at least what
    they were. *)
Theorem nothing_removed_counters_monotone (ls : LocalStorage) (op : Op) :
  (length (items (current ls)) ≤ length (items (current (exec op ls))))%nat ∧
  (length (found_reports (current ls))
     ≤ length (found_reports (current (exec op ls))))%nat ∧
  (length (claims (current ls)) ≤ length (claims (current (exec op ls))))%nat ∧
  (∀ k c, claims (current ls) !! k = Some c →
          claims (current (exec op ls)) !! k = Some c) ∧
  seq_found_reports (seq (current ls))
    ≤ seq_found_reports (seq (current (exec op ls))) ∧
  seq_claims (seq (current ls)) ≤ seq_claims (seq (current (exec op ls))).
Proof.
  assert (Hsame : (length (items (current ls)) ≤ length (items (current ls)))%nat ∧
    (length (found_reports (current ls)) ≤ length (found_reports (current ls)))%nat ∧
    (length (claims (current ls)) ≤ length (claims (current ls)))%nat ∧
    (∀ k c, claims (current ls) !! k = Some c → claims (current ls) !! k = Some c) ∧
    seq_found_reports (seq (current ls)) ≤ seq_found_reports (seq (current ls)) ∧
    seq_claims (seq (current ls)) ≤ seq_claims (seq (current ls))).
  { split_and!; auto; lia. }
  destruct op as [uuid now f|now f|rid|now itemId name|data]; cbn [exec].
  - rewrite addItem_run. cbn [snd current items found_reports claims seq].
    rewrite length_app. split_and!; auto; lia.
  - rewrite addFoundReport_run.
    cbn [snd current items found_reports claims seq seq_found_reports seq_claims].
    pose proof (Number_add1_ge (seq_found_reports (seq (current ls)))).
    rewrite length_app. split_and!; auto; lia.
  - destruct (verifyReportMoveToLost_cases ls rid)
      as [->|(i & report & j & item & _ & _ & ->)]; [exact Hsame|].
    cbn [snd current items found_reports claims seq].
    rewrite !length_insert. split_and!; auto; lia.
  - destruct (addClaim_cases ls now itemId name) as [->|(j & item & _ & ->)];
      [exact Hsame|].
    cbn [snd current items found_reports claims seq seq_found_reports seq_claims].
    pose proof (Number_add1_ge (seq_claims (seq (current ls)))).
    rewrite length_insert, length_app. split_and!; try lia.
    intros k c. apply lookup_app_l_Some.
  - destruct (importMerge_cases data ls) as [-> | [-> | ->]];
      [exact Hsame..|].
    cbn [snd current merged items found_reports claims seq seq_found_reports
         seq_claims].
    rewrite !length_app. split_and!; try lia.
    + intros k c. apply lookup_app_l_Some.
    + etrans; [|apply Math_max_ge, list_elem_of_here]. by rewrite or0_id.
    + etrans; [|apply Math_max_ge, list_elem_of_here]. by rewrite or0_id.
Qed.

(** ** The queries *)

Lemma descending_by_sorted {A} (key : A → string) (l : list A) :
  StronglySorted (not_older key) l → StronglySorted (descending_by key) l.
Proof.
  induction 1 as [|x l _ IH Hx]; constructor; [done|].
  eapply Forall_impl; [exact Hx|]. intros y Hy. by apply ltb_false_leb.
Qed.

Lemma Array_sort_listing {A} (key : A → string) (arr : list A) :
  StronglySorted (descending_by key) (Array_sort (newest_first key) arr) ∧
  Array_sort (newest_first key) arr ≡ₚ arr.
Proof.
  destruct (Array_sort_spec key arr) as [Hs Hp].
  split; [by apply descending_by_sorted|done].
Qed.

Lemma listLostItems_run ls :
  listLostItems ls =
  (Normal (Array_sort byCreatedAt
             (List.filter (λ item, String.eqb (Item.status item) "lost")
                (items (current ls)))),
   Some (current ls)).
Proof. unfold listLostItems. by rewrite bind_load. Qed.

Lemma listPendingReportsWithItem_run ls :
  ∃ rows,
    listPendingReportsWithItem ls = (Normal rows, Some (current ls)) ∧
    PendingRow.report <$> rows
      = Array_sort (newest_first FoundReport.createdAt)
          (List.filter (λ r, String.eqb (FoundReport.status r) "pending")
             (found_reports (current ls))) ∧
    ∀ row, row ∈ rows →
      let item := item_of (current ls) (FoundReport.itemId (PendingRow.report row)) in
      PendingRow.itemName row = or_else (Item.itemName <$> item) "Unknown" ∧
      PendingRow.ownerName row = or_else (Item.ownerName <$> item) "" ∧
      PendingRow.itemPhoto row = or_null (item ≫= Item.photoPath).
Proof.
  unfold listPendingReportsWithItem. rewrite bind_load. unfold ret.
  eexists. split; [reflexivity|]. split.
  - rewrite <- list_fmap_compose. apply list_fmap_id.
  - intros row (r & -> & _)%list_elem_of_fmap. by split_and!.
Qed.

Lemma listClaimsWithItem_run ls :
  ∃ rows,
    listClaimsWithItem ls = (Normal rows, Some (current ls)) ∧
    ClaimRow.claim <$> rows
      = Array_sort (newest_first Claim.createdAt) (claims (current ls)) ∧
    ∀ row, row ∈ rows →
      let item := item_of (current ls) (Claim.itemId (ClaimRow.claim row)) in
      ClaimRow.itemName row = or_else (Item.itemName <$> item) "" ∧
      ClaimRow.ownerName row = or_else (Item.ownerName <$> item) "" ∧
      ClaimRow.studentId row = or_else (Item.studentId <$> item) "".
Proof.
  unfold listClaimsWithItem. rewrite bind_load. unfold ret.
  eexists. split; [reflexivity|]. split.
  - cbn [claims]. rewrite <- list_fmap_compose. apply list_fmap_id.
  - cbn [claims]. intros row (r & -> & _)%list_elem_of_fmap. by split_and!.
Qed.

Lemma analytics_run ls :
  ∃ rate,
    analytics ls =
    (Normal (mkAnalytics (length (items (current ls)))
               (count_status Item.status "claimed" (items (current ls)))
               (count_status Item.status "lost" (items (current ls)))
               (count_status FoundReport.status "pending"
                  (found_reports (current ls)))
               rate),
     Some (current ls)) ∧
    (length (items (current ls)) = O → rate = PrimFloat.zero).
Proof.
  unfold analytics. rewrite bind_load. unfold ret.
  eexists. split; [reflexivity|]. by intros ->.
Qed.

(** X10. The queries ([getItem], [listItemsByStudent], [listLostItems],
    [listPendingReportsWithItem], [listClaimsWithItem], [analytics],
    [exportAll]) never throw and never change the store;
    [listClaimsWithItem] sorts the claims of the copy it loaded, the stored
    claims keep their order. *)
Theorem queries_are_read_only (id studentId : string) :
  read_only (getItem id) ∧
  read_only (listItemsByStudent studentId) ∧
  read_only listLostItems ∧
  read_only listPendingReportsWithItem ∧
  read_only listClaimsWithItem ∧
  read_only analytics ∧
  read_only exportAll.
Proof.
  split_and!; intros ls.
  - rewrite getItem_current. by eauto.
  - unfold listItemsByStudent. rewrite bind_load. unfold ret. by eauto.
  - rewrite listLostItems_run. by eauto.
  - destruct (listPendingReportsWithItem_run ls) as (rows & -> & _). by eauto.
  - destruct (listClaimsWithItem_run ls) as (rows & -> & _). by eauto.
  - destruct (analytics_run ls) as (rate & -> & _). by eauto.
  - unfold exportAll. rewrite load_current. by eauto.
Qed.

Lemma elem_of_filter_status {A} (status : A → string) s (l : list A) x :
  x ∈ List.filter (λ y, String.eqb (status y) s) l ↔ x ∈ l ∧ status x = s.
Proof.
  by rewrite list_elem_of_In, List.filter_In, <- list_elem_of_In, String.eqb_eq.
Qed.

(** X11. [listLostItems] returns exactly the items whose status is "lost",
    each as often as the store holds it, in order of createdAt descending. *)
Theorem listLostItems_result (ls : LocalStorage) :
  ∃ result,
    fst (listLostItems ls) = Normal result ∧
    result ≡ₚ List.filter (λ item, String.eqb (Item.status item) "lost")
                (items (current ls)) ∧
    (∀ x, x ∈ result ↔ x ∈ items (current ls) ∧ Item.status x = "lost") ∧
    StronglySorted (descending_by Item.createdAt) result.
Proof.
  rewrite listLostItems_run. cbn [fst]. eexists. split; [reflexivity|].
  rewrite byCreatedAt_newest_first.
  destruct (Array_sort_listing Item.createdAt
              (List.filter (λ item, String.eqb (Item.status item) "lost")
                 (items (current ls)))) as [Hs Hp].
  split_and!; [done| |done].
  intros x. by rewrite Hp, elem_of_filter_status.
Qed.

Lemma item_of_lookup db id item :
  item_of db id = Some item → item ∈ items db ∧ Item.id item = id.
Proof.
  unfold item_of.
  destruct (Array_find _ (items db)) as [[j x]|] eqn:E; [|done].
  intros [= <-]. apply Array_find_Some in E as (Hj & Hid%String.eqb_eq & _).
  split; [|done]. apply list_elem_of_lookup. by exists j.
Qed.

(** X12. Right after a successful [verifyReportMoveToLost] the item the
    report names (as [getItem] returns it) is on the list of lost items;
    right after a successful [addClaim] the item claimed (as [getItem]
    returns it) is not. *)
Theorem lost_listing_follows_calls (ls : LocalStorage) :
  (∀ reportId ls',
      verifyReportMoveToLost reportId ls = (Normal true, ls') →
      ∃ i report item' listing,
        Array_find (λ x, FoundReport.id x =? reportId)
          (found_reports (current ls)) = Some (i, report) ∧
        fst (getItem (FoundReport.itemId report) ls') = Normal (Some item') ∧
        fst (listLostItems ls') = Normal listing ∧
        item' ∈ listing) ∧
  (∀ now itemId claimantName claim,
      fst (addClaim now itemId claimantName ls) = Normal (Some claim) →
      ∃ item' listing,
        fst (getItem itemId (snd (addClaim now itemId claimantName ls)))
          = Normal (Some item') ∧
        fst (listLostItems (snd (addClaim now itemId claimantName ls)))
          = Normal listing ∧
        item' ∉ listing).
Proof.
  split.
  - intros rid ls' (i & report & j & item & H1 & H2 & ->)%verifyReportMoveToLost_true.
    assert (Hget : item_of
               (mkStore (<[j := moved_to_lost report item]> (items (current ls)))
                  (<[i := FoundReport.set_status "verified" report]>
                     (found_reports (current ls)))
                  (claims (current ls)) (seq (current ls)))
               (FoundReport.itemId report) = Some (moved_to_lost report item)).
    { unfold item_of. cbn [items].
      erewrite Array_find_insert; [reflexivity|exact H2|].
      rewrite moved_to_lost_id.
      apply Array_find_Some in H2 as (_ & Hp & _). exact Hp. }
    exists i, report, (moved_to_lost report item).
    rewrite listLostItems_run, item_of_getItem, current_Some, Hget. cbn [fst].
    eexists. split_and!; [done..|].
    rewrite byCreatedAt_newest_first.
    rewrite (proj2 (Array_sort_listing Item.createdAt _)).
    apply elem_of_filter_status. split; [|apply moved_to_lost_status].
    by apply item_of_lookup in Hget as [Hin _].
  - intros now itemId name claim.
    destruct (addClaim_cases ls now itemId name) as [->|(j & item & H2 & ->)];
      [done|].
    cbn [fst snd]. intros _.
    rewrite listLostItems_run, item_of_getItem, current_Some. cbn [fst].
    unfold item_of. cbn [items].
    erewrite Array_find_insert;
      [|exact H2|apply Array_find_Some in H2 as (_ & Hp & _); exact Hp].
    eexists _, _. split_and!; [reflexivity..|].
    rewrite byCreatedAt_newest_first.
    rewrite (proj2 (Array_sort_listing Item.createdAt _)).
    rewrite elem_of_filter_status. intros [_ Hst]. discriminate Hst.
Qed.

Lemma lost_listing_follows_calls_witness :
  (∃ i report item' listing,
     Array_find (λ x, FoundReport.id x =? 1)
       (found_reports (current claimed_and_reported)) = Some (i, report) ∧
     fst (getItem (FoundReport.itemId report)
            (exec (OpVerifyReportMoveToLost 1) claimed_and_reported))
       = Normal (Some item') ∧
     fst (listLostItems (exec (OpVerifyReportMoveToLost 1) claimed_and_reported))
       = Normal listing ∧
     item' ∈ listing) ∧
  (∃ item' listing,
     fst (getItem "a1" (snd (addClaim "2024-01-09T08:00:00.000Z" "a1" "Ana"
                               claimed_and_reported))) = Normal (Some item') ∧
     fst (listLostItems (snd (addClaim "2024-01-09T08:00:00.000Z" "a1" "Ana"
                               claimed_and_reported))) = Normal listing ∧
     item' ∉ listing).
Proof.
  destruct (lost_listing_follows_calls claimed_and_reported) as [Hv Hc].
  split.
  - apply (Hv 1). reflexivity.
  - apply (Hc "2024-01-09T08:00:00.000Z" "a1" "Ana"
             (Claim.mk 2 "a1" "Ana" "2024-01-09T08:00:00.000Z")).
    reflexivity.
Defined.

(** X13. [listPendingReportsWithItem] returns one row per pending report
    and no other, latest first. A report whose item id no item carries is
    not left out: its row shows "Unknown", an empty owner name and no
    photo. Otherwise the row shows the name, owner and photo of the first
    item with that id, with "Unknown" for an empty item name. *)
Theorem listPendingReportsWithItem_result (ls : LocalStorage) :
  ∃ rows,
    fst (listPendingReportsWithItem ls) = Normal rows ∧
    PendingRow.report <$> rows
      ≡ₚ List.filter (λ r, String.eqb (FoundReport.status r) "pending")
           (found_reports (current ls)) ∧
    (∀ r, r ∈ PendingRow.report <$> rows ↔
          r ∈ found_reports (current ls) ∧ FoundReport.status r = "pending") ∧
    StronglySorted (descending_by FoundReport.createdAt)
      (PendingRow.report <$> rows) ∧
    (∀ row, row ∈ rows →
       (∀ x, x ∈ items (current ls) →
             Item.id x ≠ FoundReport.itemId (PendingRow.report row)) →
       PendingRow.itemName row = "Unknown" ∧ PendingRow.ownerName row = "" ∧
       PendingRow.itemPhoto row = None) ∧
    (∀ row item, row ∈ rows →
       fst (getItem (FoundReport.itemId (PendingRow.report row)) ls)
         = Normal (Some item) →
       PendingRow.itemName row
         = (if String.eqb (Item.itemName item) "" then "Unknown"
            else Item.itemName item) ∧
       PendingRow.ownerName row = Item.ownerName item ∧
       PendingRow.itemPhoto row = or_null (Item.photoPath item)).
Proof.
  destruct (listPendingReportsWithItem_run ls) as (rows & -> & Hrep & Hjoin).
  cbn [fst]. exists rows. rewrite Hrep.
  destruct (Array_sort_listing FoundReport.createdAt
              (List.filter (λ r, String.eqb (FoundReport.status r) "pending")
                 (found_reports (current ls)))) as [Hs Hp].
  split_and!; [done|done| |done| |].
  - intros r. by rewrite Hp, elem_of_filter_status.
  - intros row Hrow Hdangling. destruct (Hjoin row Hrow) as (-> & -> & ->).
    assert (item_of (current ls) (FoundReport.itemId (PendingRow.report row))
            = None) as ->; [|done].
    unfold item_of.
    destruct (Array_find _ (items (current ls))) as [[j x]|] eqn:E; [|done].
    apply Array_find_Some in E as (Hj & Hid%String.eqb_eq & _).
    destruct (Hdangling x); [|done]. apply list_elem_of_lookup. by exists j.
  - intros row item Hrow. rewrite item_of_getItem. intros [= Hitem].
    destruct (Hjoin row Hrow) as (-> & -> & ->). rewrite Hitem. cbn.
    split_and!; [done| |done].
    by destruct (String.eqb_spec (Item.ownerName item) "").
Qed.

Lemma listPendingReportsWithItem_result_witness :
  ∃ rows,
    fst (listPendingReportsWithItem
           (Some (mkStore [wallet] [report57; wallet_report None] [] (mkSeq 57 0))))
      = Normal rows ∧
    PendingRow.itemName <$> rows = ["Blue Wallet"; "Blue Wallet"] ∧
    fst (listPendingReportsWithItem
           (Some (mkStore [wallet2] [report57] [] (mkSeq 57 0))))
      = Normal [PendingRow.mk report57 "Unknown" "" None].
Proof.
  destruct (listPendingReportsWithItem_result
              (Some (mkStore [wallet2] [report57] [] (mkSeq 57 0))))
    as (rows & Hrun & _ & _ & _ & Hdangling & _).
  eexists. split; [reflexivity|]. split; [reflexivity|].
  rewrite Hrun. f_equal.
  assert (Hrows : rows = [PendingRow.mk report57 "Unknown" "" None])
    by (by injection Hrun as <-).
  destruct (Hdangling (PendingRow.mk report57 "Unknown" "" None)) as (_ & _ & _).
  - rewrite Hrows. apply list_elem_of_here.
  - intros x Hx. apply list_elem_of_singleton in Hx as ->. discriminate.
  - exact Hrows.
Defined.

(** X14. [listClaimsWithItem] returns one row per claim, latest first, each
    with the name, owner and student id of the first item carrying the
    claim's item id, or empty strings when no item carries it. *)
Theorem listClaimsWithItem_result (ls : LocalStorage) :
  ∃ rows,
    fst (listClaimsWithItem ls) = Normal rows ∧
    ClaimRow.claim <$> rows ≡ₚ claims (current ls) ∧
    StronglySorted (descending_by Claim.createdAt) (ClaimRow.claim <$> rows) ∧
    (∀ row, row ∈ rows →
       (∀ x, x ∈ items (current ls) →
             Item.id x ≠ Claim.itemId (ClaimRow.claim row)) →
       ClaimRow.itemName row = "" ∧ ClaimRow.ownerName row = "" ∧
       ClaimRow.studentId row = "") ∧
    (∀ row item, row ∈ rows →
       fst (getItem (Claim.itemId (ClaimRow.claim row)) ls) = Normal (Some item) →
       ClaimRow.itemName row = Item.itemName item ∧
       ClaimRow.ownerName row = Item.ownerName item ∧
       ClaimRow.studentId row = Item.studentId item).
Proof.
  destruct (listClaimsWithItem_run ls) as (rows & -> & Hrep & Hjoin).
  cbn [fst]. exists rows. rewrite Hrep.
  destruct (Array_sort_listing Claim.createdAt (claims (current ls)))
    as [Hs Hp].
  split_and!; [done..| |].
  - intros row Hrow Hdangling. destruct (Hjoin row Hrow) as (-> & -> & ->).
    assert (item_of (current ls) (Claim.itemId (ClaimRow.claim row)) = None)
      as ->; [|done].
    unfold item_of.
    destruct (Array_find _ (items (current ls))) as [[j x]|] eqn:E; [|done].
    apply Array_find_Some in E as (Hj & Hid%String.eqb_eq & _).
    destruct (Hdangling x); [|done]. apply list_elem_of_lookup. by exists j.
  - intros row item Hrow. rewrite item_of_getItem. intros [= Hitem].
    destruct (Hjoin row Hrow) as (-> & -> & ->). rewrite Hitem. cbn.
    assert (Hor : ∀ s, (if String.eqb s "" then "" else s) = s).
    { intros s. by destruct (String.eqb_spec s ""). }
    by rewrite !Hor.
Qed.

Lemma listClaimsWithItem_result_witness :
  ∃ rows,
    fst (listClaimsWithItem
           (exec (OpAddClaim "2024-01-09T08:00:00.000Z" "a1" "Bea")
              claimed_and_reported)) = Normal rows ∧
    Claim.claimantName ∘ ClaimRow.claim <$> rows = ["Bea"; "Ana"] ∧
    ClaimRow.itemName <$> rows = ["Blue Wallet"; "Blue Wallet"].
Proof.
  destruct (listClaimsWithItem_result
              (exec (OpAddClaim "2024-01-09T08:00:00.000Z" "a1" "Bea")
                 claimed_and_reported)) as (rows & Hrun & _).
  exists rows. split; [exact Hrun|]. by injection Hrun as <-.
Defined.

Lemma nothing_removed_counters_monotone_witness :
  (∀ k c, claims (current claimed_and_reported) !! k = Some c →
          claims (current (exec (OpImportMerge snapshot57) claimed_and_reported))
            !! k = Some c) ∧
  seq_found_reports (seq (current claimed_and_reported))
    ≤ seq_found_reports
        (seq (current (exec (OpImportMerge snapshot57) claimed_and_reported))).
Proof.
  destruct (nothing_removed_counters_monotone claimed_and_reported
              (OpImportMerge snapshot57)) as (_ & _ & _ & Hclaims & Hseq & _).
  split; [exact Hclaims | exact Hseq].
Defined.

(** ** [analytics] *)

Lemma one_if_cases status s :
  (status = s ∧ one_if status s = 1%nat) ∨ (status ≠ s ∧ one_if status s = O).
Proof. unfold one_if. destruct (String.eqb_spec status s); auto. Qed.

Lemma count_status_cons {A} (status : A → string) s x (l : list A) :
  count_status status s (x :: l)
  = (one_if (status x) s + count_status status s l)%nat.
Proof.
  unfold count_status, one_if. cbn. by destruct (String.eqb (status x) s).
Qed.

Lemma count_status_insert {A} (status : A → string) s (l : list A) i x x' :
  l !! i = Some x →
  (count_status status s (<[i := x']> l) + one_if (status x) s
   = count_status status s l + one_if (status x') s)%nat.
Proof.
  revert i. induction l as [|y l IH]; intros [|i] Hi; try done.
  - injection Hi as ->. change (<[O := x']> (x :: l)) with (x' :: l).
    rewrite !count_status_cons. lia.
  - change (<[S i := x']> (y :: l)) with (y :: <[i := x']> l).
    rewrite !count_status_cons. specialize (IH i Hi). lia.
Qed.

Lemma count_status_app {A} (status : A → string) s (l1 l2 : list A) :
  count_status status s (l1 ++ l2)
  = (count_status status s l1 + count_status status s l2)%nat.
Proof. unfold count_status. by rewrite List.filter_app, length_app. Qed.

Lemma count_status_disjoint {A} (status : A → string) s1 s2 (l : list A) :
  s1 ≠ s2 →
  (count_status status s1 l + count_status status s2 l ≤ length l)%nat.
Proof.
  intros Hne. induction l as [|x l IH]; [done|].
  rewrite !count_status_cons. cbn [length].
  destruct (one_if_cases (status x) s1) as [[E1 ->]|[_ ->]],
           (one_if_cases (status x) s2) as [[E2 ->]|[_ ->]]; try lia.
  congruence.
Qed.

Lemma count_status_le {A} (status : A → string) s (l : list A) :
  (count_status status s l ≤ length l)%nat.
Proof.
  induction l as [|x l IH]; [done|]. rewrite count_status_cons. cbn [length].
  destruct (one_if_cases (status x) s) as [[_ ->]|[_ ->]]; lia.
Qed.

(** X15. The numbers of [analytics] are consistent with the store and the
    listings: total is the number of items, claimed and lost together never
    exceed it, lost is the length of [listLostItems], pendingReports the
    length of [listPendingReportsWithItem]; and with no item at all the
    recovery rate is 0, not a division by zero. *)
Theorem analytics_counts (ls : LocalStorage) :
  ∃ a lostItems rows,
    fst (analytics ls) = Normal a ∧
    fst (listLostItems ls) = Normal lostItems ∧
    fst (listPendingReportsWithItem ls) = Normal rows ∧
    total a = length (items (current ls)) ∧
    (claimed a + lost a ≤ total a)%nat ∧
    lost a = length lostItems ∧
    pendingReports a = length rows ∧
    (pendingReports a ≤ length (found_reports (current ls)))%nat ∧
    (total a = O →
     claimed a = O ∧ lost a = O ∧ recoveryRate a = PrimFloat.zero).
Proof.
  destruct (analytics_run ls) as (rate & -> & Hzero).
  destruct (listPendingReportsWithItem_run ls) as (rows & -> & Hrep & _).
  rewrite listLostItems_run. cbn [fst total claimed lost pendingReports recoveryRate].
  eexists _, _, rows. split_and!; try reflexivity.
  - by apply count_status_disjoint.
  - rewrite byCreatedAt_newest_first.
    by rewrite (proj2 (Array_sort_listing Item.createdAt _)).
  - rewrite <- (length_fmap PendingRow.report), Hrep.
    by rewrite (proj2 (Array_sort_listing FoundReport.createdAt _)).
  - apply count_status_le.
  - intros Hlen. cbn [total claimed lost recoveryRate] in *.
    split_and!; [| |by apply Hzero].
    + pose proof (count_status_le Item.status "claimed" (items (current ls))). lia.
    + pose proof (count_status_le Item.status "lost" (items (current ls))). lia.
Qed.

Lemma analytics_counts_witness :
  ∃ a,
    fst (analytics None) = Normal a ∧
    total a = O ∧ claimed a = O ∧ lost a = O ∧ pendingReports a = O ∧
    recoveryRate a = PrimFloat.zero.
Proof.
  destruct (analytics_counts None)
    as (a & lostItems & rows & Ha & _ & _ & Htotal & _ & _ & _ & Hp & Hzero).
  exists a. destruct (Hzero Htotal) as (Hc & Hl & Hr).
  split_and!; [done..| |done]. cbn in Hp. lia.
Defined.

(** The scenario of the specification ends with one item out of one
    claimed; and the rate is rounded from the double, not from the exact
    quotient: 29 claimed items out of 200 are 14.499999999999998 percent. *)
Example analytics_scenario :
  fst (analytics (exec (OpAddClaim "2024-01-02T09:00:00.000Z" "a1" "Ana")
                    registered_only))
  = Normal (mkAnalytics 1 1 0 0 100%float).
Proof. reflexivity. Qed.

Example recoveryRate_rounds_the_double :
  Math_round (PrimFloat.mul (PrimFloat.div (Number_of_nat 29) (Number_of_nat 200))
                (Number_of_nat 100)) = 14%float ∧
  Math_round (PrimFloat.mul (PrimFloat.div (Number_of_nat 1) (Number_of_nat 8))
                (Number_of_nat 100)) = 13%float.
Proof. split; reflexivity. Qed.

(** X16. What the two transitions do to the numbers of [analytics]. A
    successful [addClaim] keeps total and pendingReports, makes claimed one
    more unless the item was already claimed, and lost one less if the
    item was lost. A successful [verifyReportMoveToLost] keeps total, makes
    lost one more unless the item was already lost, claimed one less if
    the item was claimed, and pendingReports one less if the report was
    pending. *)
Theorem analytics_follows_calls (ls : LocalStorage) :
  (∀ now itemId claimantName claim a,
      fst (addClaim now itemId claimantName ls) = Normal (Some claim) →
      fst (analytics ls) = Normal a →
      ∃ item a',
        fst (getItem itemId ls) = Normal (Some item) ∧
        fst (analytics (snd (addClaim now itemId claimantName ls))) = Normal a' ∧
        total a' = total a ∧ pendingReports a' = pendingReports a ∧
        (claimed a' + one_if (Item.status item) "claimed" = claimed a + 1)%nat ∧
        (lost a' + one_if (Item.status item) "lost" = lost a)%nat) ∧
  (∀ reportId ls' a,
      verifyReportMoveToLost reportId ls = (Normal true, ls') →
      fst (analytics ls) = Normal a →
      ∃ i report item a',
        Array_find (λ x, FoundReport.id x =? reportId)
          (found_reports (current ls)) = Some (i, report) ∧
        fst (getItem (FoundReport.itemId report) ls) = Normal (Some item) ∧
        fst (analytics ls') = Normal a' ∧
        total a' = total a ∧
        (lost a' + one_if (Item.status item) "lost" = lost a + 1)%nat ∧
        (claimed a' + one_if (Item.status item) "claimed" = claimed a)%nat ∧
        (pendingReports a' + one_if (FoundReport.status report) "pending"
         = pendingReports a)%nat).
Proof.
  destruct (analytics_run ls) as (rate & Hrun & _). rewrite Hrun. cbn [fst].
  split.
  - intros now itemId name claim a Hclaim [= <-]. revert Hclaim.
    destruct (addClaim_cases ls now itemId name) as [->|(j & item & H2 & ->)];
      [done|].
    cbn [fst snd]. intros _.
    destruct (analytics_run (Some (mkStore
      (<[j := Item.set_lastClaimedAt (Some now) (Item.set_status "claimed" item)]>
         (items (current ls)))
      (found_reports (current ls))
      (claims (current ls)
         ++ [Claim.mk (Number_add1 (seq_claims (seq (current ls)))) itemId name now])
      (mkSeq (seq_found_reports (seq (current ls)))
         (Number_add1 (seq_claims (seq (current ls)))))))) as (rate' & Hrun' & _).
    pose proof H2 as (Hj & _)%Array_find_Some.
    eexists item, _. split_and!.
    + rewrite item_of_getItem. unfold item_of. by rewrite H2.
    + rewrite Hrun'. reflexivity.
    + cbn [total current items]. apply length_insert.
    + reflexivity.
    + cbn [claimed current items].
      rewrite (count_status_insert _ _ _ _ _ _ Hj). cbn. lia.
    + cbn [lost current items].
      rewrite (count_status_insert _ _ _ _ _ _ Hj). cbn. lia.
  - intros rid ls' a Hv [= <-].
    apply verifyReportMoveToLost_true in Hv
      as (i & report & j & item & H1 & H2 & ->).
    destruct (analytics_run (Some (mkStore
      (<[j := moved_to_lost report item]> (items (current ls)))
      (<[i := FoundReport.set_status "verified" report]>
         (found_reports (current ls)))
      (claims (current ls)) (seq (current ls))))) as (rate' & Hrun' & _).
    pose proof H2 as (Hj & _)%Array_find_Some.
    pose proof H1 as (Hi & _)%Array_find_Some.
    eexists i, report, item, _. split_and!.
    + done.
    + rewrite item_of_getItem. unfold item_of. by rewrite H2.
    + rewrite Hrun'. reflexivity.
    + cbn [total current items]. apply length_insert.
    + cbn [lost current items].
      rewrite (count_status_insert _ _ _ _ _ _ Hj), moved_to_lost_status.
      cbn. lia.
    + cbn [claimed current items].
      rewrite (count_status_insert _ _ _ _ _ _ Hj), moved_to_lost_status.
      cbn. lia.
    + cbn [pendingReports current found_reports].
      rewrite (count_status_insert _ _ _ _ _ _ Hi). cbn. lia.
Qed.

Lemma analytics_follows_calls_witness :
  ∃ a',
    fst (analytics (exec (OpVerifyReportMoveToLost 1) claimed_and_reported))
      = Normal a' ∧
    total a' = 1%nat ∧ lost a' = 1%nat ∧ claimed a' = O ∧
    pendingReports a' = O.
Proof.
  destruct (analytics_follows_calls claimed_and_reported) as [_ Hv].
  destruct (Hv 1 (exec (OpVerifyReportMoveToLost 1) claimed_and_reported)
              (mkAnalytics 1 1 0 1 100%float) eq_refl eq_refl)
    as (i & report & item & a' & Hfind & Hitem & Ha' & Ht & Hl & Hc & Hp).
  exists a'. injection Hfind as <- <-. injection Hitem as <-.
  cbn in Ht, Hl, Hc, Hp. split_and!; [done|lia..].
Defined.

(** ** More on [importMerge] *)

Lemma mergeArray_Throw {K A} `{Countable K} (uniqueBy : A → K) arr c :
  mergeArray uniqueBy arr c = Throw ↔ ¬ valid_coll c.
Proof.
  destruct (mergeArray_cases uniqueBy arr c) as [[Hv ->]|Ht].
  - split; [done|]. by intros [].
  - split; [|done]. intros _ Hv. by rewrite (mergeArray_valid _ _ _ Hv) in Ht.
Qed.

(** X17. [importMerge] throws exactly on an object one of whose three
    collections is present but not an array, or is an array with a null
    element. It throws before saving: the store is then as it was, also
    when an earlier collection had already been merged in memory. *)
Theorem importMerge_throw (ls : LocalStorage) (data : JsValue) :
  (fst (importMerge data ls) = Throw ↔
   ∃ o, data = JsObject o ∧
        ¬ (valid_coll (snap_items o) ∧ valid_coll (snap_found_reports o) ∧
           valid_coll (snap_claims o))) ∧
  (fst (importMerge data ls) = Throw →
   current (snd (importMerge data ls)) = current ls).
Proof.
  split.
  - split.
    + intros Hthrow. destruct data as [| | |n|s|elems|o].
      * rewrite importMerge_rejected in Hthrow by (by left). discriminate.
      * rewrite importMerge_rejected in Hthrow by (by left). discriminate.
      * rewrite importMerge_rejected in Hthrow by (by right). discriminate.
      * rewrite importMerge_rejected in Hthrow by (by right). discriminate.
      * rewrite importMerge_rejected in Hthrow by (by right). discriminate.
      * rewrite importMerge_array in Hthrow. discriminate.
      * exists o. split; [done|]. intros Hv.
        rewrite (importMerge_valid (JsObject o) ls Hv) in Hthrow.
        discriminate.
    + intros (o & -> & Hinv).
      destruct (importMerge_cases (JsObject o) ls) as [E | [-> | E]];
        [|done|].
      * unfold importMerge in E. cbn [ToBoolean typeof negb orb] in E.
        rewrite String.eqb_refl in E. cbn [negb orb] in E.
        rewrite bind_load in E. unfold bind in E.
        repeat case_match; simplify_eq.
      * destruct Hinv.
        unfold importMerge in E. cbn [ToBoolean typeof negb orb] in E.
        rewrite String.eqb_refl in E. cbn [negb orb] in E.
        rewrite bind_load in E. unfold bind in E at 1.
        destruct (mergeArray_cases Item.id (items (current ls))
                    (data_items (JsObject o))) as [[Hi Hmi]|Hmi];
          rewrite Hmi in E; [|done]. cbn [lift ret] in E.
        unfold bind in E at 1.
        destruct (mergeArray_cases FoundReport.id (found_reports (current ls))
                    (data_found_reports (JsObject o))) as [[Hf Hmf]|Hmf];
          rewrite Hmf in E; [|done]. cbn [lift ret] in E.
        unfold bind in E at 1.
        destruct (mergeArray_cases Claim.id (claims (current ls))
                    (data_claims (JsObject o))) as [[Hc Hmc]|Hmc];
          rewrite Hmc in E; [|done].
        done.
  - destruct (importMerge_cases data ls) as [-> | [-> | ->]]; done.
Qed.

Lemma importMerge_throw_witness :
  fst (importMerge
         (JsObject (mkSnapshot (Elems [Some wallet2]) (Elems [None]) Absent))
         registered_only) = Throw ∧
  current (snd (importMerge
         (JsObject (mkSnapshot (Elems [Some wallet2]) (Elems [None]) Absent))
         registered_only)) = current registered_only.
Proof.
  destruct (importMerge_throw registered_only
              (JsObject (mkSnapshot (Elems [Some wallet2]) (Elems [None]) Absent)))
    as [Hiff Hsame].
  assert (Hthrow : fst (importMerge
            (JsObject (mkSnapshot (Elems [Some wallet2]) (Elems [None]) Absent))
            registered_only) = Throw).
  { apply Hiff. eexists. split; [reflexivity|].
    intros (_ & Hf & _). cbn in Hf. apply Forall_cons in Hf as [[x Hx] _].
    discriminate Hx. }
  split; [exact Hthrow | exact (Hsame Hthrow)].
Defined.

Lemma missing_after_merge {K A} `{Countable K} (uniqueBy : A → K) arr c :
  missing uniqueBy (arr ++ missing uniqueBy arr c) c = [].
Proof.
  apply missing_nil. intros x Hx. rewrite fmap_app, elem_of_app.
  destruct (decide (uniqueBy x ∈ uniqueBy <$> arr)) as [Hin|Hout]; [by left|].
  right. apply list_elem_of_fmap_2. by apply elem_of_missing.
Qed.

Lemma Math_max_again (counter : N) (ids : list N) :
  Math_max (or0 (Math_max (or0 counter :: (ids ++ [0]))) :: (ids ++ [0]))
  = Math_max (or0 counter :: (ids ++ [0])).
Proof.
  apply Math_max_covered. intros n Hn.
  apply Math_max_ge, list_elem_of_further, elem_of_app. by left.
Qed.

Lemma merged_twice db data : merged (merged db data) data = merged db data.
Proof.
  unfold merged at 1. cbn [merged items found_reports claims seq
    seq_found_reports seq_claims].
  rewrite !missing_after_merge, !app_nil_r. by rewrite !Math_max_again.
Qed.

(** X18. Importing the same structurally valid snapshot a second time
    changes nothing: it returns true and the store, counters included, is
    as the first import left it. *)
Theorem importMerge_idempotent (ls : LocalStorage) (data : JsValue) :
  structurally_valid data →
  importMerge data (snd (importMerge data ls))
  = (Normal true, snd (importMerge data ls)).
Proof.
  intros Hv. rewrite !(importMerge_valid _ _ Hv). cbn [snd current].
  by rewrite merged_twice.
Qed.

Lemma importMerge_idempotent_witness :
  importMerge snapshot_items (snd (importMerge snapshot_items registered_only))
  = (Normal true, snd (importMerge snapshot_items registered_only)).
Proof.
  apply (importMerge_idempotent registered_only snapshot_items).
  cbn. split_and!; [|exact I..].
  constructor; [by eexists|]. constructor; [by eexists|constructor].
Defined.

(** X19. After [importMerge] of a structurally valid snapshot every id of
    the snapshot is in the store: each item, found report and claim of the
    snapshot was either added or found its id already taken. *)
Theorem importMerge_covers_snapshot (ls : LocalStorage) (data : JsValue) :
  structurally_valid data →
  (∀ x, x ∈ records (data_items data) →
        Item.id x ∈ Item.id <$> items (current (snd (importMerge data ls)))) ∧
  (∀ x, x ∈ records (data_found_reports data) →
        FoundReport.id x
          ∈ FoundReport.id <$> found_reports (current (snd (importMerge data ls)))) ∧
  (∀ x, x ∈ records (data_claims data) →
        Claim.id x ∈ Claim.id <$> claims (current (snd (importMerge data ls)))).
Proof.
  intros Hv. rewrite (importMerge_valid _ _ Hv).
  cbn [snd current merged items found_reports claims].
  assert (Hcover : ∀ K A (EqK : EqDecision K) (CK : Countable K)
            (uniqueBy : A → K) arr c x,
            x ∈ records c →
            uniqueBy x ∈ uniqueBy <$> (arr ++ missing uniqueBy arr c)).
  { intros K A EqK CK uniqueBy arr c x Hx. rewrite fmap_app, elem_of_app.
    destruct (decide (uniqueBy x ∈ uniqueBy <$> arr)) as [Hin|Hout]; [by left|].
    right. apply list_elem_of_fmap_2. by apply elem_of_missing. }
  split_and!; intros x; apply Hcover.
Qed.

Lemma importMerge_covers_snapshot_witness :
  "a2" ∈ Item.id <$> items (current (snd (importMerge snapshot_items
                                            registered_only))).
Proof.
  destruct (importMerge_covers_snapshot registered_only snapshot_items)
    as (Hitems & _ & _).
  - cbn. split_and!; [|exact I..].
    constructor; [by eexists|]. constructor; [by eexists|constructor].
  - apply (Hitems wallet2). cbn. apply list_elem_of_further, list_elem_of_here.
Defined.

(** ** Backup and restore *)

Lemma exec_seq_attained op ls :
  seq_attained (current ls) → seq_attained (current (exec op ls)).
Proof.
  intros [Hf Hc]. destruct op as [uuid now f|now f|rid|now itemId name|data];
    cbn [exec].
  - rewrite addItem_run. by split.
  - rewrite addFoundReport_run. cbn zeta. cbn [snd current].
    split; cbn [found_reports claims seq seq_found_reports seq_claims]; [|done].
    right. rewrite fmap_app, elem_of_app. right. cbn. apply list_elem_of_here.
  - destruct (verifyReportMoveToLost_cases ls rid)
      as [->|(i & report & j & item & H1 & _ & ->)]; [by split|].
    cbn [snd current].
    split; cbn [found_reports claims seq seq_found_reports seq_claims]; [|done].
    rewrite list_fmap_insert, list_insert_id; [done|].
    apply Array_find_Some in H1 as (Hi & _). by rewrite list_lookup_fmap, Hi.
  - destruct (addClaim_cases ls now itemId name) as [->|(j & item & _ & ->)];
      [by split|].
    cbn [snd current].
    split; cbn [found_reports claims seq seq_found_reports seq_claims]; [done|].
    right. rewrite fmap_app, elem_of_app. right. cbn. apply list_elem_of_here.
  - destruct (importMerge_cases data ls) as [-> | [-> | ->]];
      [by split|by split|].
    cbn [snd current]. unfold merged.
    split; cbn [found_reports claims seq seq_found_reports seq_claims].
    + destruct (Math_max_greatest (seq_found_reports (seq (current ls)))
                  (FoundReport.id <$> (found_reports (current ls)
                     ++ missing FoundReport.id (found_reports (current ls))
                          (data_found_reports data)))) as [Hin _].
      apply elem_of_cons in Hin as [Heq|Hin]; [|by right].
      rewrite Heq. destruct Hf as [Hf|Hf]; [by left|].
      right. rewrite fmap_app, elem_of_app. by left.
    + destruct (Math_max_greatest (seq_claims (seq (current ls)))
                  (Claim.id <$> (claims (current ls)
                     ++ missing Claim.id (claims (current ls))
                          (data_claims data)))) as [Hin _].
      apply elem_of_cons in Hin as [Heq|Hin]; [|by right].
      rewrite Heq. destruct Hc as [Hc|Hc]; [by left|].
      right. rewrite fmap_app, elem_of_app. by left.
Qed.

Lemma reachable_seq_attained ls : reachable ls → seq_attained (current ls).
Proof.
  induction 1 as [|ls op _ IH]; [by split; left|by apply exec_seq_attained].
Qed.

Lemma missing_into_empty {K A} `{Countable K} (uniqueBy : A → K) (l : list A) :
  missing uniqueBy [] (Elems (Some <$> l)) = l.
Proof.
  unfold missing. rewrite records_payload. cbn.
  induction l as [|x l IH]; [done|]. cbn.
  rewrite bool_decide_eq_false_2 by apply not_elem_of_nil. cbn. by rewrite IH.
Qed.

Lemma Math_max_restored (counter : N) (ids : list N) :
  (∀ n, n ∈ ids → n ≤ counter) → counter = 0 ∨ counter ∈ ids →
  Math_max (or0 0 :: (ids ++ [0])) = counter.
Proof.
  intros Hcov Hatt. destruct (Math_max_greatest 0 ids) as [Hin Hge].
  apply elem_of_cons in Hin as [Hin|Hin].
  - destruct Hatt as [->|Hatt]; [done|]. specialize (Hge _ (list_elem_of_further _ _ _ Hatt)).
    lia.
  - specialize (Hcov _ Hin). destruct Hatt as [->|Hatt]; [lia|].
    specialize (Hge _ (list_elem_of_further _ _ _ Hatt)). lia.
Qed.

(** X20. A backup restores: importing what [exportAll] returned from a
    store reachable through the API into a browser that has no store yet
    returns true and gives back exactly that store, records in their order
    and both counters. *)
Theorem export_then_import_into_fresh_browser (ls : LocalStorage) :
  reachable ls →
  ∃ data ls1,
    exportAll ls = (Normal data, ls1) ∧
    importMerge (as_payload data) None = (Normal true, Some (current ls)).
Proof.
  intros Hreach. exists (current ls), (Some (current ls)).
  split; [apply load_current|].
  rewrite (importMerge_valid _ _ (as_payload_valid _)). do 2 f_equal.
  destruct (reachable_seq_covers ls Hreach) as [Hf Hc].
  destruct (reachable_seq_attained ls Hreach) as [Af Ac].
  unfold merged. cbn [current items found_reports claims seq seq_found_reports
    seq_claims as_payload data_items data_found_reports data_claims snap_items
    snap_found_reports snap_claims].
  rewrite !missing_into_empty. cbn [app].
  rewrite (Math_max_restored _ _ Hf Af), (Math_max_restored _ _ Hc Ac).
  by destruct (current ls) as [? ? ? []].
Qed.

Lemma export_then_import_into_fresh_browser_witness :
  ∃ data ls1,
    exportAll claimed_and_reported = (Normal data, ls1) ∧
    importMerge (as_payload data) None
      = (Normal true, Some (current claimed_and_reported)).
Proof.
  apply (export_then_import_into_fresh_browser claimed_and_reported).
  do 3 constructor; constructor.
Defined.

(** ** [uuidv4] *)

Lemma below_16 (v : N) :
  v < 16 →
  v = 0 ∨ v = 1 ∨ v = 2 ∨ v = 3 ∨ v = 4 ∨ v = 5 ∨ v = 6 ∨ v = 7 ∨
  v = 8 ∨ v = 9 ∨ v = 10 ∨ v = 11 ∨ v = 12 ∨ v = 13 ∨ v = 14 ∨ v = 15.
Proof. lia. Qed.

Lemma Number_toString16_digit (v : N) :
  v < 16 →
  ∃ c, Number_toString16 v = String c "" ∧
       existsb (Ascii.eqb c) (list_ascii_of_string "0123456789abcdef") = true.
Proof.
  intros Hv. apply below_16 in Hv.
  repeat (destruct Hv as [->|Hv]; [by eexists|]). subst v. by eexists.
Qed.

Lemma Number_toString16_variant (r : N) :
  r < 16 →
  ∃ c, Number_toString16 (N.lor (N.land r 3) 8) = String c "" ∧
       existsb (Ascii.eqb c) (list_ascii_of_string "89ab") = true.
Proof.
  intros Hr. apply below_16 in Hr.
  repeat (destruct Hr as [->|Hr]; [by eexists|]). subst r. by eexists.
Qed.

Lemma append_digit (c : ascii) (s : string) :
  String.append (String c "") s = String c s.
Proof. reflexivity. Qed.

Lemma replace_xy_shape (rand : nat → N) (template : string) (k : nat) :
  (∀ k, rand k < 16) → has_shape template (replace_xy template rand k) = true.
Proof.
  intros Hrand. revert k. induction template as [|t template IH]; intros k;
    [done|].
  cbn [replace_xy]. destruct (Ascii.eqb t "x") eqn:Ex; cbn [orb].
  - destruct (Number_toString16_digit (rand k) (Hrand k)) as (c & -> & Hc).
    rewrite append_digit. cbn [has_shape]. by rewrite Ex, Hc, IH.
  - destruct (Ascii.eqb t "y") eqn:Ey.
    + destruct (Number_toString16_variant (rand k) (Hrand k)) as (c & -> & Hc).
      rewrite append_digit. cbn [has_shape]. by rewrite Ex, Ey, Hc, IH.
    + cbn [has_shape]. by rewrite Ex, Ey, Ascii.eqb_refl, IH.
Qed.

Lemma has_shape_length template u :
  has_shape template u = true → String.length u = String.length template.
Proof.
  revert u. induction template as [|t template IH]; intros [|c u]; try done.
  cbn [has_shape String.length]. intros [_ Hu]%andb_true_iff. by rewrite IH.
Qed.

(** X21. Where the host has no [crypto.randomUUID], the id [uuidv4] builds
    always has the shape of a version-4 UUID: 36 characters, hyphens after
    the 8th, 13th, 18th and 23rd, a 4 opening the third group, one of 8, 9,
    a, b opening the fourth, lowercase hexadecimal digits elsewhere. Where
    the host has it, the id is the host's. *)
Theorem uuidv4_shape (rand : nat → N) :
  (∀ k, rand k < 16) →
  has_shape "xxxxxxxx-xxxx-4xxx-yxxx-xxxxxxxxxxxx" (uuidv4 None rand) = true ∧
  String.length (uuidv4 None rand) = 36%nat ∧
  ∀ id, uuidv4 (Some id) rand = id.
Proof.
  intros Hrand.
  assert (Hshape := replace_xy_shape rand
            "xxxxxxxx-xxxx-4xxx-yxxx-xxxxxxxxxxxx" O Hrand).
  split_and!; [done| |done].
  exact (has_shape_length _ _ Hshape).
Qed.

Lemma uuidv4_shape_witness :
  uuidv4 None (λ k, N.of_nat (k * 7 mod 16))
    = "07e5c3a1-8f6d-44b2-907e-5c3a18f6d4b2" ∧
  has_shape "xxxxxxxx-xxxx-4xxx-yxxx-xxxxxxxxxxxx"
    (uuidv4 None (λ k, N.of_nat (k * 7 mod 16))) = true.
Proof.
  split; [reflexivity|].
  apply (uuidv4_shape (λ k, N.of_nat (k * 7 mod 16))).
  intros k. pose proof (Nat.mod_upper_bound (k * 7) 16). lia.
Defined.

(** ** [inferCategoryFromName] *)

Lemma matches_here_same_letters pattern a b :
  same_letters a b → matches_here pattern a = matches_here pattern b.
Proof.
  revert a b. induction pattern as [|p pattern IH]; intros [|x a] [|y b];
    try done.
  cbn. intros [-> Hab]. by rewrite (IH a b Hab).
Qed.

Lemma RegExp_test_same_letters alternatives a b :
  same_letters a b → RegExp_test alternatives a = RegExp_test alternatives b.
Proof.
  revert b. induction a as [|x a IH]; intros [|y b] Hab; try done.
  cbn [RegExp_test]. destruct Hab as [Hxy Hab]. rewrite (IH b Hab). f_equal.
  clear IH. induction alternatives as [|p alternatives IHp]; [done|]. cbn [existsb].
  rewrite IHp. f_equal.
  apply matches_here_same_letters. by split.
Qed.

Lemma inferCategoryFromName_keys name :
  inferCategoryFromName name = "phones" ∨
  inferCategoryFromName name = "wallets" ∨
  inferCategoryFromName name = "tumblers" ∨
  inferCategoryFromName name = "other".
Proof.
  unfold inferCategoryFromName. destruct name as [name|]; [|auto].
  repeat case_match; auto.
Qed.

(** X22. [inferCategoryFromName] returns one of the four category keys and
    does not depend on the case of the letters of the name: two names that
    differ only in the case of letters a to z get the same category. *)
Theorem inferCategoryFromName_ignores_case (a b : string) :
  same_letters a b →
  inferCategoryFromName (Some a) = inferCategoryFromName (Some b) ∧
  (inferCategoryFromName (Some a) = "phones" ∨
   inferCategoryFromName (Some a) = "wallets" ∨
   inferCategoryFromName (Some a) = "tumblers" ∨
   inferCategoryFromName (Some a) = "other").
Proof.
  intros Hab. split; [|apply inferCategoryFromName_keys].
  unfold inferCategoryFromName.
  rewrite !(RegExp_test_same_letters _ a b Hab).
  by destruct a, b.
Qed.

Lemma inferCategoryFromName_ignores_case_witness :
  inferCategoryFromName (Some "My IPHONE 12") = "phones" ∧
  inferCategoryFromName (Some "my iphone 12") = "phones".
Proof.
  destruct (inferCategoryFromName_ignores_case "My IPHONE 12" "my iphone 12")
    as [Heq _].
  - cbn. by repeat split.
  - split; [rewrite Heq|]; reflexivity.
Defined.

Lemma matches_here_append pattern s post :
  matches_here pattern s = true →
  matches_here pattern (String.append s post) = true.
Proof.
  revert s. induction pattern as [|p pattern IH]; intros [|c s]; try done.
  change (String.append (String c s) post) with (String c (String.append s post)).
  cbn [matches_here]. intros [Hc Hs]%andb_true_iff. by rewrite Hc, IH.
Qed.

Lemma RegExp_test_append alternatives s post :
  RegExp_test alternatives s = true →
  RegExp_test alternatives (String.append s post) = true.
Proof.
  induction s as [|c s IH].
  - cbn [RegExp_test]. rewrite orb_false_r. intros Hex.
    apply existsb_exists in Hex as (p & Hp & Hm).
    destruct p as [|? ?]; [|done].
    destruct post; cbn [String.append RegExp_test]; apply orb_true_iff; left;
      apply existsb_exists; by exists "".
  - cbn [RegExp_test String.append]. intros [Hex|Hs]%orb_true_iff;
      apply orb_true_iff; [left|right; by apply IH].
    apply existsb_exists in Hex as (p & Hp & Hm). apply existsb_exists.
    exists p. split; [done|]. by apply (matches_here_append p (String c s)).
Qed.

Lemma RegExp_test_prepend alternatives pre s :
  RegExp_test alternatives s = true →
  RegExp_test alternatives (String.append pre s) = true.
Proof.
  intros Hs. induction pre as [|c pre IH]; [done|].
  change (String.append (String c pre) s) with (String c (String.append pre s)).
  cbn [RegExp_test]. rewrite IH. apply orb_true_r.
Qed.

Lemma RegExp_test_around alternatives pre s post :
  RegExp_test alternatives s = true →
  RegExp_test alternatives (String.append pre (String.append s post)) = true.
Proof. intros Hs. by apply RegExp_test_prepend, RegExp_test_append. Qed.

(** X23. The categories are tried in the order phones, wallets, tumblers:
    putting text before or after a name never moves it down that order. A
    name inferred as a phone stays a phone whatever is added, one inferred
    as a wallet becomes at most a phone. *)
Theorem inferCategoryFromName_monotone (pre name post : string) :
  (category_rank (inferCategoryFromName (Some name))
   ≤ category_rank
       (inferCategoryFromName
          (Some (String.append pre (String.append name post)))))%nat ∧
  (inferCategoryFromName (Some name) = "phones" →
   inferCategoryFromName (Some (String.append pre (String.append name post)))
   = "phones").
Proof.
  assert (Hne : name ≠ "" → String.append pre (String.append name post) ≠ "").
  { intros Hn. destruct pre; [|done]. by destruct name. }
  unfold inferCategoryFromName.
  destruct (String.eqb_spec name "") as [->|Hn].
  { split; [cbn; lia|discriminate]. }
  destruct (String.eqb_spec (String.append pre (String.append name post)) "")
    as [E|_]; [by destruct (Hne Hn)|].
  destruct (RegExp_test ["phone"; "iphone"; "android"; "samsung"; "oppo"; "vivo"]
              name) eqn:Hp.
  { rewrite (RegExp_test_around _ pre name post Hp). by split. }
  split; [|by repeat case_match].
  destruct (RegExp_test _ (String.append pre (String.append name post)));
    [repeat case_match; cbn; lia|].
  destruct (RegExp_test ["wallet"] name) eqn:Hw.
  { rewrite (RegExp_test_around _ pre name post Hw). done. }
  destruct (RegExp_test ["wallet"] (String.append pre (String.append name post)));
    [repeat case_match; cbn; lia|].
  destruct (RegExp_test ["tumbler"; "bottle"; "hydro"] name) eqn:Ht.
  { rewrite (RegExp_test_around _ pre name post Ht). done. }
  cbn. lia.
Qed.

Lemma inferCategoryFromName_monotone_witness :
  inferCategoryFromName (Some "red Android wallet") = "phones".
Proof.
  destruct (inferCategoryFromName_monotone "red " "Android" " wallet")
    as [_ Hphone].
  apply Hphone. reflexivity.
Defined.
